(** * The [oc create route passthrough] command and the kubectl shim

    A shallow embedding of [pkg/cli/create/routepassthrough.go] and
    [pkg/cli/shim_kubectl.go].  Both files are glue over client libraries:
    what they compute is a route object and a sequence of calls into those
    libraries.  The embedding therefore keeps
    - the API objects as records (pointers as [option], Go maps as [gmap]),
    - Go's [(value, error)] returns as a [result],
    - the calls that leave the file as operations of a small error/state
      monad that records every call it issues, with its arguments. *)

From stdpp Require Import base strings list gmap.

Local Open Scope string_scope.

(** ** Go's [(value, error)] returns *)

Inductive result (E A : Type) : Type :=
| Ok (a : A)
| Failed (e : E).
Arguments Ok {E A} a.
Arguments Failed {E A} e.

(** ** API types ([k8s.io/apimachinery], [github.com/openshift/api]) *)

Module metav1.

(** The part of [metav1.ObjectMeta] that the route helpers populate. *)
Record ObjectMeta : Type := {
  Name : string;
  Namespace : string;
  Labels : gmap string string;
  Annotations : gmap string string;
}.

Record CreateOptions : Type := {
  DryRun : list string;
  FieldManager : string;
}.

(** [metav1.CreateOptions{}] *)
Definition CreateOptions_zero : CreateOptions :=
  {| DryRun := []; FieldManager := "" |}.

Definition set_Annotations (a : gmap string string) (m : ObjectMeta) : ObjectMeta :=
  {| Name := Name m; Namespace := Namespace m; Labels := Labels m;
     Annotations := a |}.

End metav1.

Module routev1.

(** [type TLSTerminationType string] and its constants. *)
Definition TLSTerminationType := string.
Definition TLSTerminationEdge : TLSTerminationType := "edge".
Definition TLSTerminationPassthrough : TLSTerminationType := "passthrough".
Definition TLSTerminationReencrypt : TLSTerminationType := "reencrypt".

(** [type InsecureEdgeTerminationPolicyType string] *)
Definition InsecureEdgeTerminationPolicyType := string.
Definition InsecureEdgeTerminationPolicyNone : InsecureEdgeTerminationPolicyType := "None".
Definition InsecureEdgeTerminationPolicyAllow : InsecureEdgeTerminationPolicyType := "Allow".
Definition InsecureEdgeTerminationPolicyRedirect : InsecureEdgeTerminationPolicyType := "Redirect".

(** [type WildcardPolicyType string] *)
Definition WildcardPolicyType := string.
Definition WildcardPolicyNone : WildcardPolicyType := "None".
Definition WildcardPolicySubdomain : WildcardPolicyType := "Subdomain".

Record TLSConfig : Type := {
  Termination : TLSTerminationType;
  Certificate : string;
  Key : string;
  CACertificate : string;
  DestinationCACertificate : string;
  InsecureEdgeTerminationPolicy : InsecureEdgeTerminationPolicyType;
}.

(** [new(routev1.TLSConfig)]: every field at its zero value. *)
Definition new_TLSConfig : TLSConfig :=
  {| Termination := ""; Certificate := ""; Key := ""; CACertificate := "";
     DestinationCACertificate := ""; InsecureEdgeTerminationPolicy := "" |}.

Definition set_Termination (t : TLSTerminationType) (c : TLSConfig) : TLSConfig :=
  {| Termination := t; Certificate := Certificate c; Key := Key c;
     CACertificate := CACertificate c;
     DestinationCACertificate := DestinationCACertificate c;
     InsecureEdgeTerminationPolicy := InsecureEdgeTerminationPolicy c |}.

Definition set_InsecureEdgeTerminationPolicy
    (p : InsecureEdgeTerminationPolicyType) (c : TLSConfig) : TLSConfig :=
  {| Termination := Termination c; Certificate := Certificate c; Key := Key c;
     CACertificate := CACertificate c;
     DestinationCACertificate := DestinationCACertificate c;
     InsecureEdgeTerminationPolicy := p |}.

(** [intstr.IntOrString], the type of a route's target port. *)
Inductive IntOrString : Type :=
| FromInt (i : Z)
| FromString (s : string).

Record RoutePort : Type := { TargetPort : IntOrString }.

Record RouteTargetReference : Type := {
  Kind : string;
  TargetName : string;
  Weight : option Z;
}.

Record RouteSpec : Type := {
  Host : string;
  Path : string;
  To : RouteTargetReference;
  Port : option RoutePort;
  TLS : option TLSConfig;
  WildcardPolicy : WildcardPolicyType;
}.

Record Route : Type := {
  Meta : metav1.ObjectMeta;
  Spec : RouteSpec;
}.

Definition set_WildcardPolicy (w : WildcardPolicyType) (s : RouteSpec) : RouteSpec :=
  {| Host := Host s; Path := Path s; To := To s; Port := Port s; TLS := TLS s;
     WildcardPolicy := w |}.

Definition set_Host (h : string) (s : RouteSpec) : RouteSpec :=
  {| Host := h; Path := Path s; To := To s; Port := Port s; TLS := TLS s;
     WildcardPolicy := WildcardPolicy s |}.

Definition set_TLS (t : option TLSConfig) (s : RouteSpec) : RouteSpec :=
  {| Host := Host s; Path := Path s; To := To s; Port := Port s; TLS := t;
     WildcardPolicy := WildcardPolicy s |}.

(** Assignment through [route.Spec.f = v]. *)
Definition with_Spec (f : RouteSpec → RouteSpec) (r : Route) : Route :=
  {| Meta := Meta r; Spec := f (Spec r) |}.

(** Assignment through [route.Spec.TLS.f = v]; Go panics on a nil
    [route.Spec.TLS], which the model renders as leaving the route as it
    is: [Run] only writes through the pointer it has just allocated. *)
Definition with_TLS (f : TLSConfig → TLSConfig) (r : Route) : Route :=
  with_Spec (λ s, set_TLS (f <$> TLS s) s) r.

Definition with_Annotations (a : gmap string string) (r : Route) : Route :=
  {| Meta := metav1.set_Annotations a (Meta r); Spec := Spec r |}.

End routev1.

Module kcmdutil.

(** [type DryRunStrategy int] with its three [iota] constants. *)
Inductive DryRunStrategy : Type :=
| DryRunNone
| DryRunClient
| DryRunServer.

#[global] Instance DryRunStrategy_eq_dec : EqDecision DryRunStrategy.
Proof. solve_decision. Defined.

End kcmdutil.

(** ** The flag library ([github.com/spf13/pflag])

    The command registers its flags with pflag and leaves parsing and
    validation to cobra.  The part of both libraries that decides whether a
    command's [Run] closure is reached is small; it is written out here from
    their documented behaviour, with usage texts and shorthands left out and
    the command line already split into tokens ([--name] alone, for a
    boolean flag, is the token [--name=true]). *)

Module pflag.

Inductive FlagError : Type :=
| NoSuchFlag (name : string)
| InvalidArgument (name value : string).

(** A flag: [SetValue] is the [Set] method of its [Value] and [ValueType]
    its [Type] method; a string flag accepts every argument. *)
Record Flag : Type := {
  Name : string;
  Value : string;
  DefValue : string;
  Changed : bool;
  Annotations : gmap string (list string);
  SetValue : string → option string;
  ValueType : string;
}.

(** The formal flags, in the order they were registered. *)
Definition FlagSet : Type := list Flag.

Fixpoint Lookup (name : string) (fs : FlagSet) : option Flag :=
  match fs with
  | [] => None
  | f :: fs' => if decide (Name f = name) then Some f else Lookup name fs'
  end.

(** Replaces the flag called [name], where there is one. *)
Fixpoint modify (name : string) (g : Flag → Flag) (fs : FlagSet) : FlagSet :=
  match fs with
  | [] => []
  | f :: fs' =>
      if decide (Name f = name) then g f :: fs' else f :: modify name g fs'
  end.

(** [AddFlag] panics when the name is taken: [None]. *)
Definition AddFlag (f : Flag) (fs : FlagSet) : option FlagSet :=
  match Lookup (Name f) fs with
  | Some _ => None
  | None => Some (fs ++ [f])%list
  end.

(** [fs.StringVar(&p, name, value, usage)] *)
Definition StringVar (name value : string) (fs : FlagSet) : option FlagSet :=
  AddFlag {| Name := name; Value := value; DefValue := value; Changed := false;
             Annotations := ∅; SetValue := Some; ValueType := "string" |} fs.

Definition SetAnnotation (name key : string) (values : list string)
    (fs : FlagSet) : result FlagError FlagSet :=
  match Lookup name fs with
  | None => Failed (NoSuchFlag name)
  | Some _ =>
      Ok (modify name
            (λ f, {| Name := Name f; Value := Value f; DefValue := DefValue f;
                     Changed := Changed f;
                     Annotations := <[key := values]> (Annotations f);
                     SetValue := SetValue f; ValueType := ValueType f |}) fs)
  end.

(** [fs.Set(name, value)]: what parsing does for [--name=value]. *)
Definition Set_ (name value : string) (fs : FlagSet) : result FlagError FlagSet :=
  match Lookup name fs with
  | None => Failed (NoSuchFlag name)
  | Some f =>
      match SetValue f value with
      | None => Failed (InvalidArgument name value)
      | Some v =>
          Ok (modify name
                (λ f, {| Name := Name f; Value := v; DefValue := DefValue f;
                         Changed := true; Annotations := Annotations f;
                         SetValue := SetValue f; ValueType := ValueType f |}) fs)
      end
  end.

(** A command line after tokenisation: [--name=value] or a positional
    argument. *)
Inductive Token : Type :=
| Opt (name value : string)
| Arg (a : string).

(** [fs.Parse(arguments)]: the flags as set, and the positional arguments. *)
Fixpoint Parse (ts : list Token) (fs : FlagSet) : result FlagError (FlagSet * list string) :=
  match ts with
  | [] => Ok (fs, [])
  | Opt n v :: ts' =>
      match Set_ n v fs with
      | Failed e => Failed e
      | Ok fs' => Parse ts' fs'
      end
  | Arg a :: ts' =>
      match Parse ts' fs with
      | Failed e => Failed e
      | Ok (fs', args) => Ok (fs', a :: args)
      end
  end.

(** [--name] is on the command line. *)
Definition supplied (name : string) (ts : list Token) : bool :=
  existsb (λ t, match t with
                | Opt n _ => bool_decide (n = name)
                | Arg _ => false
                end) ts.

(** The value a bound variable holds: [StringVar] binds [&p] to the flag. *)
Definition GetString (name : string) (fs : FlagSet) : string :=
  match Lookup name fs with
  | Some f => Value f
  | None => ""
  end.

(** [strconv.ParseBool] and [strconv.FormatBool]. *)
Definition ParseBool (s : string) : option bool :=
  if bool_decide (s ∈ ["1"; "t"; "T"; "TRUE"; "true"; "True"]) then Some true
  else if bool_decide (s ∈ ["0"; "f"; "F"; "FALSE"; "false"; "False"])
       then Some false
       else None.

Definition FormatBool (b : bool) : string := if b then "true" else "false".

(** The flag that [fs.Bool(name, value, usage)] registers. *)
Definition BoolFlag (name : string) (value : bool) : Flag :=
  {| Name := name; Value := FormatBool value; DefValue := FormatBool value;
     Changed := false; Annotations := ∅;
     SetValue := λ s, FormatBool <$> ParseBool s; ValueType := "bool" |}.

(** [fs.GetBool(name)]: [None] is its error, for a flag that is not
    defined, is not of type bool or holds no boolean. *)
Definition GetBool (name : string) (fs : FlagSet) : option bool :=
  match Lookup name fs with
  | Some f => if decide (ValueType f = "bool") then ParseBool (Value f) else None
  | None => None
  end.


End pflag.

(** ** The command library ([github.com/spf13/cobra]) *)

Module cobra.

Import pflag.

Definition BashCompOneRequiredFlag : string :=
  "cobra_annotation_bash_completion_one_required_flag".

(** A command whose [Run] closure yields a [T]. *)
Record Command (T : Type) : Type := {
  Use : string;
  Short : string;
  Flags : FlagSet;
  Run : FlagSet → list string → T;
}.
Arguments Use {T} c.
Arguments Short {T} c.
Arguments Flags {T} c.
Arguments Run {T} c.

Definition with_Flags {T} (fs : FlagSet) (c : Command T) : Command T :=
  {| Use := Use c; Short := Short c; Flags := fs; Run := Run c |}.

(** [c.MarkFlagRequired(name)]: the command as it is afterwards, and the
    error. *)
Definition MarkFlagRequired {T} (name : string) (c : Command T)
    : Command T * option FlagError :=
  match SetAnnotation name BashCompOneRequiredFlag ["true"] (Flags c) with
  | Ok fs => (with_Flags fs c, None)
  | Failed e => (c, Some e)
  end.

Definition is_required (f : Flag) : bool :=
  match Annotations f !! BashCompOneRequiredFlag with
  | Some (v :: _) => bool_decide (v = "true")
  | _ => false
  end.

(** [c.ValidateRequiredFlags()]: the required flags that were not set. *)
Definition missingRequiredFlags (fs : FlagSet) : list string :=
  Name <$> filter (λ f, is_required f && negb (Changed f) = true) fs.

(** A required flag called [name] is registered and has not been set. *)
Definition awaits (name : string) (fs : FlagSet) : Prop :=
  ∃ f, f ∈ fs ∧ Name f = name ∧ is_required f = true ∧ Changed f = false.

(** [c.InitDefaultHelpFlag()]: a boolean [help] flag, false by default,
    unless a flag of that name is registered already. *)
Definition InitDefaultHelpFlag {T} (c : Command T) : Command T :=
  match Lookup "help" (Flags c) with
  | Some _ => c
  | None => with_Flags (Flags c ++ [BoolFlag "help" false])%list c
  end.

Inductive Outcome (T : Type) : Type :=
| FlagParseError (e : FlagError)
| HelpFlagNotBool
| HelpRequested
| RequiredFlagsNotSet (missing : list string)
| Ran (t : T).
Arguments FlagParseError {T} e.
Arguments HelpFlagNotBool {T}.
Arguments HelpRequested {T}.
Arguments RequiredFlagsNotSet {T} missing.
Arguments Ran {T} t.

(** [c.execute(a)] for a command with no hooks, its own or inherited: add
    the default help flag, parse the flags, return [flag.ErrHelp] when help
    is asked for (or the error of [GetBool] for a [help] flag that is no
    boolean), validate the required flags, then call [Run]. *)
Definition execute {T} (c : Command T) (a : list Token) : Outcome T :=
  let c := InitDefaultHelpFlag c in
  match Parse a (Flags c) with
  | Failed e => FlagParseError e
  | Ok (fs, args) =>
      match GetBool "help" fs with
      | None => HelpFlagNotBool
      | Some true => HelpRequested
      | Some false =>
          match missingRequiredFlags fs with
          | [] => Ran (Run c fs args)
          | missing => RequiredFlagsNotSet missing
          end
      end
  end.

End cobra.

(** ** [pkg/cli/create]: the passthrough-route command *)

Module create.

Import metav1 routev1 kcmdutil.

Section Passthrough.

(** Go's [error] values, the state of the cluster behind the API server,
    and the two client handles [Run] only passes on. *)
Context {error Cluster RESTMapper CoreV1Interface : Type}.

(** [routev1client.RouteInterface]: the one method [Run] calls.  A
    create request answers with the stored object or an error and may
    change the cluster. *)
Record RouteInterface : Type := {
  Create : Route → CreateOptions → Cluster → result error Route * Cluster;
}.

(** [routev1client.RoutesGetter] *)
Record RoutesGetter : Type := {
  Routes : string → RouteInterface;
}.

(** [printers.ResourcePrinter]: [PrintObj obj w] yields the bytes it
    writes to [w] and its error ([None] is Go's [nil]). *)
Record ResourcePrinter : Type := {
  PrintObj : Route → string * option error;
}.

(** [CreateRouteSubcommandOptions] is declared in [route.go] of the same
    package; these are the fields [Run] reads.  The embedded
    [IOStreams.Out] writer is the [Out] component of the state below. *)
Record CreateRouteSubcommandOptions : Type := {
  Name : string;
  Namespace : string;
  EnforceNamespace : bool;
  CreateAnnotation : bool;
  Mapper : RESTMapper;
  Printer : ResourcePrinter;
  Client : RoutesGetter;
  CoreClient : CoreV1Interface;
  DryRunStrategy : kcmdutil.DryRunStrategy;
}.

Record CreatePassthroughRouteOptions : Type := {
  SubcommandOptions : CreateRouteSubcommandOptions;
  Hostname : string;
  Port : string;
  InsecurePolicy : string;
  Service : string;
  WildcardPolicy : string;
}.

(** What the file calls and does not define.

    Called by [Run]: [resolveServiceName] ([route.go]) and
    [route.UnsecuredRoute] ([pkg/cli/create/route]) look things up through
    the mapper and the core client, so they read the cluster;
    [util.CreateOrUpdateAnnotation] (kubectl) writes to the object through
    its metadata accessor only, so it yields the annotations it leaves on
    the object.

    Called by the command: [CreateRouteSubcommandOptions.Complete]
    ([route.go]) fills the embedded options from the factory, the flags
    and the arguments; [kcmdutil.AddValidateFlags],
    [CreateRouteSubcommandOptions.AddFlags] and [kcmdutil.AddDryRunFlag]
    register further flags, given here as the flags they add. *)
Record Externals : Type := {
  ext_resolveServiceName : RESTMapper → string → Cluster → result error string;
  ext_UnsecuredRoute :
    CoreV1Interface → string → string → string → string → bool → bool →
    Cluster → result error Route;
  ext_CreateOrUpdateAnnotation : bool → Route → result error (gmap string string);
  ext_Complete :
    pflag.FlagSet → list string → Cluster → result error CreateRouteSubcommandOptions;
  ext_ValidateFlags : list pflag.Flag;
  ext_SubcommandFlags : list pflag.Flag;
  ext_DryRunFlag : list pflag.Flag;
}.

(** A call that leaves the file, with the arguments it is given. *)
Inductive Call : Type :=
| CallComplete (args : list string)
| CallResolveServiceName (resource : string)
| CallUnsecuredRoute (namespace routeName serviceName portString : string)
                     (forcePort enforceNamespace : bool)
| CallCreateOrUpdateAnnotation (createAnnotation : bool) (obj : Route)
| CallCreate (namespace : string) (obj : Route) (opts : CreateOptions)
| CallPrintObj (obj : Route).

(** What an invocation can change: the cluster, the bytes on the output
    stream, and (for the record) the calls issued so far, oldest first. *)
Record State : Type := {
  cluster : Cluster;
  Out : string;
  calls : list Call;
}.

Definition issue (c : Call) (s : State) : State :=
  {| cluster := cluster s; Out := Out s; calls := calls s ++ [c] |}.

(** *** Error/state monad *)

Definition M (A : Type) : Type := State → result error A * State.

Definition ret {A} (a : A) : M A := λ s, (Ok a, s).

(** [x, err := m; if err != nil { return err }; k x] *)
Definition bind {A B} (m : M A) (k : A → M B) : M B :=
  λ s, match m s with
       | (Ok a, s') => k a s'
       | (Failed e, s') => (Failed e, s')
       end.

Notation "'do' x <- m ; k" := (bind m (λ x, k))
  (at level 10, x name, m at level 100, k at level 200).

Variable ext : Externals.

Definition resolveServiceName (mapper : RESTMapper) (resource : string) : M string :=
  λ s, (ext_resolveServiceName ext mapper resource (cluster s),
        issue (CallResolveServiceName resource) s).

Definition UnsecuredRoute (kc : CoreV1Interface)
    (namespace routeName serviceName portString : string)
    (forcePort enforceNamespace : bool) : M Route :=
  λ s, (ext_UnsecuredRoute ext kc namespace routeName serviceName portString
          forcePort enforceNamespace (cluster s),
        issue (CallUnsecuredRoute namespace routeName serviceName portString
                 forcePort enforceNamespace) s).

(** The helper updates [obj] in place; the result is [obj] as it stands
    after the call. *)
Definition CreateOrUpdateAnnotation (createAnnotation : bool) (obj : Route) : M Route :=
  λ s, (match ext_CreateOrUpdateAnnotation ext createAnnotation obj with
        | Ok a => Ok (with_Annotations a obj)
        | Failed e => Failed e
        end,
        issue (CallCreateOrUpdateAnnotation createAnnotation obj) s).

Definition Routes_Create (c : RoutesGetter) (namespace : string)
    (obj : Route) (opts : CreateOptions) : M Route :=
  λ s, let '(r, cl) := Create (Routes c namespace) obj opts (cluster s) in
       (r, {| cluster := cl; Out := Out s;
              calls := calls s ++ [CallCreate namespace obj opts] |}).

Definition Printer_PrintObj (p : ResourcePrinter) (obj : Route) : M unit :=
  λ s, let '(bytes, err) := PrintObj p obj in
       (match err with None => Ok () | Some e => Failed e end,
        {| cluster := cluster s; Out := Out s ++ bytes;
           calls := calls s ++ [CallPrintObj obj] |}).

(** *** [func (o *CreatePassthroughRouteOptions) Run() error] *)

(** Lines 90 to 100: the assignments between construction and
    annotation. *)
Definition configure (o : CreatePassthroughRouteOptions) (route : Route) : Route :=
  let route :=
    if bool_decide (0 < String.length (WildcardPolicy o))
    then with_Spec (set_WildcardPolicy (WildcardPolicy o)) route
    else route in
  let route := with_Spec (set_Host (Hostname o)) route in
  let route := with_Spec (set_TLS (Some new_TLSConfig)) route in
  let route := with_TLS (set_Termination TLSTerminationPassthrough) route in
  if bool_decide (0 < String.length (InsecurePolicy o))
  then with_TLS (set_InsecureEdgeTerminationPolicy (InsecurePolicy o)) route
  else route.

Definition Run (o : CreatePassthroughRouteOptions) : M unit :=
  let sub := SubcommandOptions o in
  do serviceName <- resolveServiceName (Mapper sub) (Service o);
  do route <- UnsecuredRoute (CoreClient sub) (Namespace sub) (Name sub)
                serviceName (Port o) false (EnforceNamespace sub);
  let route := configure o route in
  do route <- CreateOrUpdateAnnotation (CreateAnnotation sub) route;
  do route <- (if bool_decide (DryRunStrategy sub ≠ DryRunClient)
               then Routes_Create (Client sub) (Namespace sub) route CreateOptions_zero
               else ret route);
  Printer_PrintObj (Printer sub) route.

(** The error [Run] returns: [None] is [nil]. *)
Definition returned {A} (r : result error A) : option error :=
  match r with Ok _ => None | Failed e => Some e end.

(** *** [func (o *CreatePassthroughRouteOptions) Complete(f, cmd, args) error] *)

Definition Complete (fs : pflag.FlagSet) (args : list string)
    : M CreateRouteSubcommandOptions :=
  λ s, (ext_Complete ext fs args (cluster s), issue (CallComplete args) s).

(** *** [func NewCmdCreatePassthroughRoute(f, streams) *cobra.Command] *)

(** The options as the closure finds them: each string field is bound to
    its flag. *)
Definition bound_options (fs : pflag.FlagSet) (sub : CreateRouteSubcommandOptions)
    : CreatePassthroughRouteOptions :=
  {| SubcommandOptions := sub;
     Hostname := pflag.GetString "hostname" fs;
     Port := pflag.GetString "port" fs;
     InsecurePolicy := pflag.GetString "insecure-policy" fs;
     Service := pflag.GetString "service" fs;
     WildcardPolicy := pflag.GetString "wildcard-policy" fs |}.

(** The [Run] closure of the command.  [kcmdutil.CheckErr] ends the process
    on an error, so what follows it runs on success only: the monad's
    [bind]. *)
Definition closure (fs : pflag.FlagSet) (args : list string) : M unit :=
  do sub <- Complete fs args;
  Run (bound_options fs sub).

(** Registers [flags] one after the other; [None] when pflag panics. *)
Definition AddFlags (flags : list pflag.Flag) (fs : pflag.FlagSet)
    : option pflag.FlagSet :=
  foldl (λ acc f, acc ≫= pflag.AddFlag f) (Some fs) flags.

Definition NewCmdCreatePassthroughRoute : option (cobra.Command (M unit)) :=
  let cmd := {| cobra.Use := "passthrough [NAME] --service=SERVICE";
                cobra.Short := "Create a route that uses passthrough TLS termination";
                cobra.Flags := [];
                cobra.Run := closure |} in
  fs ← pflag.StringVar "hostname" "" (cobra.Flags cmd);
  fs ← pflag.StringVar "port" "" fs;
  fs ← pflag.StringVar "insecure-policy" "" fs;
  fs ← pflag.StringVar "service" "" fs;
  let cmd := (cobra.MarkFlagRequired "service" (cobra.with_Flags fs cmd)).1 in
  fs ← pflag.StringVar "wildcard-policy" "" (cobra.Flags cmd);
  fs ← AddFlags (ext_ValidateFlags ext) fs;
  fs ← AddFlags (ext_SubcommandFlags ext) fs;
  fs ← AddFlags (ext_DryRunFlag ext) fs;
  Some (cobra.with_Flags fs cmd).

(** Running the command on a command line: what the process gets back, and
    the state it leaves.  On [flag.ErrHelp] cobra prints the help text to
    the command's own output, which is not the stream of the options, and
    returns [nil]: [ExitHelp]. *)
Inductive Exit : Type :=
| ExitOk
| ExitFatal (e : error)
| ExitFlagError (e : pflag.FlagError)
| ExitHelpFlagError
| ExitHelp
| ExitRequiredFlagsNotSet (missing : list string).

Definition Execute (cmd : cobra.Command (M unit)) (a : list pflag.Token)
    (s : State) : Exit * State :=
  match cobra.execute cmd a with
  | cobra.FlagParseError e => (ExitFlagError e, s)
  | cobra.HelpFlagNotBool => (ExitHelpFlagError, s)
  | cobra.HelpRequested => (ExitHelp, s)
  | cobra.RequiredFlagsNotSet missing => (ExitRequiredFlagsNotSet missing, s)
  | cobra.Ran m =>
      match m s with
      | (Ok _, s') => (ExitOk, s')
      | (Failed e, s') => (ExitFatal e, s')
      end
  end.

(** *** The five calls of [Run], one by one

    What each call is given and what it answers, as [Run] issues it: the
    cluster a call reads is the one [Run] started in, since the only
    writer, [Create], comes last but one. *)

Definition resolve_answer (o : CreatePassthroughRouteOptions) (s : State)
    : result error string :=
  ext_resolveServiceName ext (Mapper (SubcommandOptions o)) (Service o) (cluster s).

Definition resolve_call (o : CreatePassthroughRouteOptions) : Call :=
  CallResolveServiceName (Service o).

Definition construct_answer (o : CreatePassthroughRouteOptions) (s : State)
    (serviceName : string) : result error Route :=
  let sub := SubcommandOptions o in
  ext_UnsecuredRoute ext (CoreClient sub) (Namespace sub) (Name sub) serviceName
    (Port o) false (EnforceNamespace sub) (cluster s).

Definition construct_call (o : CreatePassthroughRouteOptions) (serviceName : string)
    : Call :=
  let sub := SubcommandOptions o in
  CallUnsecuredRoute (Namespace sub) (Name sub) serviceName (Port o) false
    (EnforceNamespace sub).

Definition annotate_answer (o : CreatePassthroughRouteOptions) (obj : Route)
    : result error (gmap string string) :=
  ext_CreateOrUpdateAnnotation ext (CreateAnnotation (SubcommandOptions o)) obj.

Definition annotate_call (o : CreatePassthroughRouteOptions) (obj : Route) : Call :=
  CallCreateOrUpdateAnnotation (CreateAnnotation (SubcommandOptions o)) obj.

Definition create_answer (o : CreatePassthroughRouteOptions) (s : State)
    (obj : Route) : result error Route * Cluster :=
  let sub := SubcommandOptions o in
  Create (Routes (Client sub) (Namespace sub)) obj CreateOptions_zero (cluster s).

Definition create_call (o : CreatePassthroughRouteOptions) (obj : Route) : Call :=
  CallCreate (Namespace (SubcommandOptions o)) obj CreateOptions_zero.

Definition print_answer (o : CreatePassthroughRouteOptions) (obj : Route)
    : string * option error :=
  PrintObj (Printer (SubcommandOptions o)) obj.

(** State [s] after the calls [cs], with the cluster and the output as
    given. *)
Definition after (cs : list Call) (cl : Cluster) (out : string) (s : State) : State :=
  {| cluster := cl; Out := out; calls := calls s ++ cs |}.

(** *** Reading the record of calls *)

(** The calls issued between state [s] and the later state [s']. *)
Definition issued (s s' : State) : list Call :=
  drop (length (calls s)) (calls s').

(** The route a call hands over when that route is the object [Run] built
    itself: the argument of the annotation helper and of [Create], and the
    printer's argument under client dry-run (otherwise the printer is given
    the server's response). *)
Definition local_object (dry : kcmdutil.DryRunStrategy) (c : Call) : option Route :=
  match c with
  | CallCreateOrUpdateAnnotation _ obj => Some obj
  | CallCreate _ obj _ => Some obj
  | CallPrintObj obj => if decide (dry = DryRunClient) then Some obj else None
  | _ => None
  end.

Definition is_Create (c : Call) : bool :=
  match c with CallCreate _ _ _ => true | _ => false end.

Definition is_PrintObj (c : Call) : bool :=
  match c with CallPrintObj _ => true | _ => false end.

(** The route the printer was given, if it was called. *)
Definition printed (cs : list Call) : option Route :=
  match last cs with
  | Some (CallPrintObj obj) => Some obj
  | _ => None
  end.

(** An error [e] comes back from service-name resolution, from route
    construction, from annotation or from the create request, the calls
    before it having succeeded. *)
Definition fails_before_printing (o : CreatePassthroughRouteOptions) (s : State)
    (e : error) : Prop :=
  resolve_answer o s = Failed e ∨
  ∃ serviceName, resolve_answer o s = Ok serviceName ∧
    (construct_answer o s serviceName = Failed e ∨
     ∃ route, construct_answer o s serviceName = Ok route ∧
       (annotate_answer o (configure o route) = Failed e ∨
        ∃ a, annotate_answer o (configure o route) = Ok a ∧
          DryRunStrategy (SubcommandOptions o) ≠ DryRunClient ∧
          (create_answer o s (with_Annotations a (configure o route))).1 = Failed e)).

(** What [Run] hands on has property [Q]: once the route is constructed,
    the annotation helper is called with the configured route, whose spec
    satisfies [Q]; once it is annotated, the annotated route, whose spec
    satisfies [Q] too, is submitted to [Create], or under client dry-run
    handed to the printer. *)
Definition hands_on (o : CreatePassthroughRouteOptions) (s : State)
    (Q : RouteSpec → Prop) : Prop :=
  ∀ serviceName route,
    resolve_answer o s = Ok serviceName →
    construct_answer o s serviceName = Ok route →
    annotate_call o (configure o route) ∈ issued s (Run o s).2 ∧
    Q (Spec (configure o route)) ∧
    ∀ a, annotate_answer o (configure o route) = Ok a →
      let obj := with_Annotations a (configure o route) in
      Q (Spec obj) ∧
      if decide (DryRunStrategy (SubcommandOptions o) = DryRunClient)
      then CallPrintObj obj ∈ issued s (Run o s).2
      else create_call o obj ∈ issued s (Run o s).2.

(** The kind of a call, its arguments left out. *)
Inductive CallKind : Type :=
| KComplete
| KResolveServiceName
| KUnsecuredRoute
| KCreateOrUpdateAnnotation
| KCreate
| KPrintObj.

Definition kind (c : Call) : CallKind :=
  match c with
  | CallComplete _ => KComplete
  | CallResolveServiceName _ => KResolveServiceName
  | CallUnsecuredRoute _ _ _ _ _ _ => KUnsecuredRoute
  | CallCreateOrUpdateAnnotation _ _ => KCreateOrUpdateAnnotation
  | CallCreate _ _ _ => KCreate
  | CallPrintObj _ => KPrintObj
  end.

(** The calls of [Run] in the order of its statements (lines 81, 85, 102,
    107 and 113); line 107 is skipped under client dry-run. *)
Definition call_order (dry : kcmdutil.DryRunStrategy) : list CallKind :=
  if decide (dry = DryRunClient)
  then [KResolveServiceName; KUnsecuredRoute; KCreateOrUpdateAnnotation; KPrintObj]
  else [KResolveServiceName; KUnsecuredRoute; KCreateOrUpdateAnnotation; KCreate;
        KPrintObj].


(** The flags that lines 69 to 71 register, in that order. *)
Definition helper_flags : list pflag.Flag :=
  (ext_ValidateFlags ext ++ ext_SubcommandFlags ext ++ ext_DryRunFlag ext)%list.

End Passthrough.

End create.

(** ** [pkg/cli]: the kubectl shim *)

Module schema.

Record GroupResource : Type := {
  Group : string;
  Resource : string;
}.

End schema.

Module kclientcmdapi.

(** [kclientcmdapi.Cluster]; a composite literal leaves the fields it does
    not name at their zero values. *)
Record Cluster : Type := {
  Server : string;
  InsecureSkipTLSVerify : bool;
  CertificateAuthority : string;
}.

End kclientcmdapi.

Module cli.

(** The function variables the shim wraps: twelve of
    [k8s.io/kubectl/pkg/polymorphichelpers], then [versioned.GeneratorFn]
    and [describe.DescriberFn]. *)
Inductive Hook : Type :=
| AttachablePodForObjectFn
| CanBeExposedFn
| HistoryViewerFn
| LogsForObjectFn
| MapBasedSelectorForObjectFn
| ObjectPauserFn
| ObjectResumerFn
| PortsForObjectFn
| ProtocolsForObjectFn
| RollbackerFn
| StatusViewerFn
| UpdatePodSpecForObjectFn
| GeneratorFn
| DescriberFn.

#[global] Instance Hook_eq_dec : EqDecision Hook.
Proof. solve_decision. Defined.

Section Shim.

(** Go's [error] values, function values (one type stands for the
    function types of all hooks), and the special-verb table of
    [kubectl create role]. *)
Context {error Func SpecialVerbs : Type}.

(** The package-level variables the shim assigns. *)
Record Globals : Type := {
  kclientcmd_ErrEmptyConfig : error;
  kclientcmd_ClusterDefaults : kclientcmdapi.Cluster;
  kclientcmd_UseModifyConfigLock : bool;
  kcmdset_ParseDockerImageReferenceToStringFunc : Func;
  kcmdcreate_specialVerbs : SpecialVerbs;
  hooks : Hook → Func;
}.

(** The process at start-up: its environment, the names [os.Getenv] has
    been asked for (oldest first), and the package-level variables. *)
Record Process : Type := {
  environ : gmap string string;
  getenv_calls : list string;
  globals : Globals;
}.

(** What the shim takes from other packages:
    [genericclioptions.ErrEmptyConfig],
    [clientcmd.ParseDockerImageReferenceToStringFunc],
    [kcmdcreate.AddSpecialVerb], and the constructors
    [originpolymorphichelpers.New...Fn], each of which wraps the function
    it is given. *)
Record Imports : Type := {
  genericclioptions_ErrEmptyConfig : error;
  clientcmd_ParseDockerImageReferenceToStringFunc : Func;
  kcmdcreate_AddSpecialVerb : string → schema.GroupResource → SpecialVerbs → SpecialVerbs;
  originpolymorphichelpers_New : Hook → Func → Func;
}.

Variable imp : Imports.

(** [os.Getenv(key)]: the value, or the empty string when unset. *)
Definition os_Getenv (key : string) (p : Process) : string * Process :=
  (default "" (environ p !! key),
   {| environ := environ p; getenv_calls := getenv_calls p ++ [key];
      globals := globals p |}).

Definition assign (f : Globals → Globals) (p : Process) : Process :=
  {| environ := environ p; getenv_calls := getenv_calls p; globals := f (globals p) |}.

Definition set_ErrEmptyConfig (e : error) (g : Globals) : Globals :=
  {| kclientcmd_ErrEmptyConfig := e;
     kclientcmd_ClusterDefaults := kclientcmd_ClusterDefaults g;
     kclientcmd_UseModifyConfigLock := kclientcmd_UseModifyConfigLock g;
     kcmdset_ParseDockerImageReferenceToStringFunc :=
       kcmdset_ParseDockerImageReferenceToStringFunc g;
     kcmdcreate_specialVerbs := kcmdcreate_specialVerbs g;
     hooks := hooks g |}.

Definition set_ClusterDefaults (c : kclientcmdapi.Cluster) (g : Globals) : Globals :=
  {| kclientcmd_ErrEmptyConfig := kclientcmd_ErrEmptyConfig g;
     kclientcmd_ClusterDefaults := c;
     kclientcmd_UseModifyConfigLock := kclientcmd_UseModifyConfigLock g;
     kcmdset_ParseDockerImageReferenceToStringFunc :=
       kcmdset_ParseDockerImageReferenceToStringFunc g;
     kcmdcreate_specialVerbs := kcmdcreate_specialVerbs g;
     hooks := hooks g |}.

Definition set_UseModifyConfigLock (b : bool) (g : Globals) : Globals :=
  {| kclientcmd_ErrEmptyConfig := kclientcmd_ErrEmptyConfig g;
     kclientcmd_ClusterDefaults := kclientcmd_ClusterDefaults g;
     kclientcmd_UseModifyConfigLock := b;
     kcmdset_ParseDockerImageReferenceToStringFunc :=
       kcmdset_ParseDockerImageReferenceToStringFunc g;
     kcmdcreate_specialVerbs := kcmdcreate_specialVerbs g;
     hooks := hooks g |}.

Definition set_ParseDockerImageReferenceToStringFunc (f : Func) (g : Globals) : Globals :=
  {| kclientcmd_ErrEmptyConfig := kclientcmd_ErrEmptyConfig g;
     kclientcmd_ClusterDefaults := kclientcmd_ClusterDefaults g;
     kclientcmd_UseModifyConfigLock := kclientcmd_UseModifyConfigLock g;
     kcmdset_ParseDockerImageReferenceToStringFunc := f;
     kcmdcreate_specialVerbs := kcmdcreate_specialVerbs g;
     hooks := hooks g |}.

Definition AddSpecialVerb (verb : string) (gr : schema.GroupResource) (g : Globals) : Globals :=
  {| kclientcmd_ErrEmptyConfig := kclientcmd_ErrEmptyConfig g;
     kclientcmd_ClusterDefaults := kclientcmd_ClusterDefaults g;
     kclientcmd_UseModifyConfigLock := kclientcmd_UseModifyConfigLock g;
     kcmdset_ParseDockerImageReferenceToStringFunc :=
       kcmdset_ParseDockerImageReferenceToStringFunc g;
     kcmdcreate_specialVerbs := kcmdcreate_AddSpecialVerb imp verb gr (kcmdcreate_specialVerbs g);
     hooks := hooks g |}.

(** [pkg.XFn = originpolymorphichelpers.NewXFn(pkg.XFn)] *)
Definition wrap (h : Hook) (g : Globals) : Globals :=
  {| kclientcmd_ErrEmptyConfig := kclientcmd_ErrEmptyConfig g;
     kclientcmd_ClusterDefaults := kclientcmd_ClusterDefaults g;
     kclientcmd_UseModifyConfigLock := kclientcmd_UseModifyConfigLock g;
     kcmdset_ParseDockerImageReferenceToStringFunc :=
       kcmdset_ParseDockerImageReferenceToStringFunc g;
     kcmdcreate_specialVerbs := kcmdcreate_specialVerbs g;
     hooks := λ h', if decide (h' = h)
                    then originpolymorphichelpers_New imp h (hooks g h)
                    else hooks g h' |}.

(** *** [func shimKubectlForOc()] *)

Definition shimKubectlForOc (p : Process) : Process :=
  let p := assign (set_ErrEmptyConfig (genericclioptions_ErrEmptyConfig imp)) p in
  let '(master, p) := os_Getenv "KUBERNETES_MASTER" p in
  let p := assign (set_ClusterDefaults
                     {| kclientcmdapi.Server := master;
                        kclientcmdapi.InsecureSkipTLSVerify := false;
                        kclientcmdapi.CertificateAuthority := "" |}) p in
  let p := assign (set_ParseDockerImageReferenceToStringFunc
                     (clientcmd_ParseDockerImageReferenceToStringFunc imp)) p in
  let p := assign (AddSpecialVerb "use"
                     {| schema.Group := "security.openshift.io";
                        schema.Resource := "securitycontextconstraints" |}) p in
  let p := assign (set_UseModifyConfigLock false) p in
  let p := assign (wrap AttachablePodForObjectFn) p in
  let p := assign (wrap CanBeExposedFn) p in
  let p := assign (wrap HistoryViewerFn) p in
  let p := assign (wrap LogsForObjectFn) p in
  let p := assign (wrap MapBasedSelectorForObjectFn) p in
  let p := assign (wrap ObjectPauserFn) p in
  let p := assign (wrap ObjectResumerFn) p in
  let p := assign (wrap PortsForObjectFn) p in
  let p := assign (wrap ProtocolsForObjectFn) p in
  let p := assign (wrap RollbackerFn) p in
  let p := assign (wrap StatusViewerFn) p in
  let p := assign (wrap UpdatePodSpecForObjectFn) p in
  let p := assign (wrap GeneratorFn) p in
  let p := assign (wrap DescriberFn) p in
  p.

End Shim.

End cli.

(** ** A test double

    A small in-memory cluster (the routes stored so far), string errors,
    and stand-ins for the helpers and clients, on which the theorems below
    are exercised. *)

Module fake.

Import metav1 routev1 kcmdutil create.

Definition error : Type := string.
Definition Cluster : Type := list Route.

(** A server that stores the object and answers with it. *)
Definition storing : @RoutesGetter error Cluster :=
  {| Routes := λ _, {| Create := λ obj _ cl, (Ok obj, (cl ++ [obj])%list) |} |}.

(** A server that picks a host name for a route that names none, as the
    router does, and answers with the object as stored. *)
Definition allocate_host (obj : Route) : Route :=
  if decide (Host (Spec obj) = "")
  then with_Spec (set_Host (metav1.Name (Meta obj) ++ ".apps.example.com")) obj
  else obj.

Definition allocating : @RoutesGetter error Cluster :=
  {| Routes := λ _, {| Create := λ obj _ cl,
                         (Ok (allocate_host obj), (cl ++ [allocate_host obj])%list) |} |}.

(** A server that refuses. *)
Definition refusing : @RoutesGetter error Cluster :=
  {| Routes := λ _, {| Create := λ _ _ cl, (Failed "forbidden", cl) |} |}.

(** A server that validates the wildcard policy, as the API server does,
    and stores what it accepts. *)
Definition validating : @RoutesGetter error Cluster :=
  {| Routes := λ _, {| Create := λ obj _ cl,
       if bool_decide (routev1.WildcardPolicy (Spec obj) ∈ [""; "None"; "Subdomain"])
       then (Ok obj, (cl ++ [obj])%list)
       else (Failed "spec.wildcardPolicy: Invalid value", cl) |} |}.

(** A printer in the manner of [-o name], and one that fails half-way. *)
Definition name_printer : @ResourcePrinter error :=
  {| PrintObj := λ obj, ("route.route.openshift.io/" ++ metav1.Name (Meta obj), None) |}.

Definition broken_printer : @ResourcePrinter error :=
  {| PrintObj := λ obj, ("route.", Some "short write") |}.

Definition string_flag (name : string) : pflag.Flag :=
  {| pflag.Name := name; pflag.Value := ""; pflag.DefValue := "";
     pflag.Changed := false; pflag.Annotations := ∅; pflag.SetValue := Some;
     pflag.ValueType := "string" |}.

Definition strategy_of (v : string) : kcmdutil.DryRunStrategy :=
  if decide (v = "client") then DryRunClient
  else if decide (v = "server") then DryRunServer
  else DryRunNone.

Definition subcommand (client : @RoutesGetter error Cluster)
    (printer : @ResourcePrinter error) (name : string) (dry : kcmdutil.DryRunStrategy)
    : @CreateRouteSubcommandOptions error Cluster () () :=
  {| create.Name := name; create.Namespace := "demo"; EnforceNamespace := true;
     CreateAnnotation := false; Mapper := (); Printer := printer;
     Client := client; CoreClient := (); DryRunStrategy := dry |}.

Definition ext : @Externals error Cluster () () :=
  {| ext_resolveServiceName := λ _ resource _,
       if decide (resource = "")
       then Failed "you need to provide a service name via --service"
       else Ok resource;
     ext_UnsecuredRoute := λ _ namespace routeName serviceName portString _ enforce _,
       if decide (serviceName = "missing")
       then Failed "you need to provide a route port via --port"
       else Ok {| Meta := {| metav1.Name := if decide (routeName = "")
                                            then serviceName else routeName;
                             metav1.Namespace := if enforce then namespace else "";
                             Labels := ∅; Annotations := ∅ |};
                  Spec := {| Host := ""; Path := "";
                             To := {| Kind := ""; TargetName := serviceName;
                                      Weight := None |};
                             routev1.Port := None; TLS := None;
                             routev1.WildcardPolicy := "" |} |};
     ext_CreateOrUpdateAnnotation := λ createAnnotation obj,
       if createAnnotation
       then Ok (<["kubectl.kubernetes.io/last-applied-configuration" := "{}"]>
                  (Annotations (Meta obj)))
       else Ok (Annotations (Meta obj));
     ext_Complete := λ fs args _,
       Ok (subcommand storing name_printer (hd "" args)
             (strategy_of (pflag.GetString "dry-run" fs)));
     ext_ValidateFlags := [string_flag "validate"];
     ext_SubcommandFlags := [string_flag "output"; string_flag "template"];
     ext_DryRunFlag := [string_flag "dry-run"] |}.

Definition options (sub : @CreateRouteSubcommandOptions error Cluster () ())
    (service hostname wildcard insecure : string)
    : @CreatePassthroughRouteOptions error Cluster () () :=
  {| SubcommandOptions := sub; Hostname := hostname; create.Port := "";
     InsecurePolicy := insecure; Service := service;
     create.WildcardPolicy := wildcard |}.

(** An empty cluster, nothing printed, no call issued. *)
Definition start : @State Cluster :=
  {| cluster := []; Out := ""; calls := [] |}.

(** The same helpers with a [Complete] that fails, as when no namespace
    can be determined. *)
Definition incomplete : @Externals error Cluster () () :=
  {| ext_resolveServiceName := ext_resolveServiceName ext;
     ext_UnsecuredRoute := ext_UnsecuredRoute ext;
     ext_CreateOrUpdateAnnotation := ext_CreateOrUpdateAnnotation ext;
     ext_Complete := λ _ _ _, Failed "no namespace";
     ext_ValidateFlags := ext_ValidateFlags ext;
     ext_SubcommandFlags := ext_SubcommandFlags ext;
     ext_DryRunFlag := ext_DryRunFlag ext |}.

End fake.

(** * Properties of [Run] *)

Section Run_properties.

Import metav1 routev1 kcmdutil create.

Context {error Cluster RESTMapper CoreV1Interface : Type}.
Variable ext : @Externals error Cluster RESTMapper CoreV1Interface.

Implicit Types (o : @CreatePassthroughRouteOptions error Cluster RESTMapper CoreV1Interface).
Implicit Types (s : @State Cluster) (obj route : Route) (e : error).

(** The route [Run] works on from annotation onwards. *)
Local Abbreviation annotated o route a := (with_Annotations a (configure o route)).

(** What [configure] leaves in the spec: host and TLS are overwritten,
    the wildcard policy only when the option is set, the rest is kept. *)
Lemma configure_Spec o route :
  Spec (configure o route) =
  {| Host := Hostname o;
     Path := Path (Spec route);
     To := To (Spec route);
     routev1.Port := routev1.Port (Spec route);
     TLS := Some {| Termination := TLSTerminationPassthrough;
                    Certificate := ""; Key := ""; CACertificate := "";
                    DestinationCACertificate := "";
                    InsecureEdgeTerminationPolicy :=
                      if bool_decide (0 < String.length (InsecurePolicy o))
                      then InsecurePolicy o else "" |};
     routev1.WildcardPolicy :=
       if bool_decide (0 < String.length (create.WildcardPolicy o))
       then create.WildcardPolicy o
       else routev1.WildcardPolicy (Spec route) |}.
Proof.
  unfold configure.
  destruct (bool_decide (0 < String.length (create.WildcardPolicy o)));
    destruct (bool_decide (0 < String.length (InsecurePolicy o)));
    reflexivity.
Qed.

Lemma configure_Meta o route : Meta (configure o route) = Meta route.
Proof.
  unfold configure.
  destruct (bool_decide (0 < String.length (create.WildcardPolicy o)));
    destruct (bool_decide (0 < String.length (InsecurePolicy o)));
    reflexivity.
Qed.

Lemma issued_after (cs : list Call) (cl : Cluster) (out : string) s :
  issued s (after cs cl out s) = cs.
Proof. unfold issued, after; simpl. apply drop_app_length. Qed.

(** [Run], step by step: each failure ends it with that step's error, and
    the state records the calls up to the failing one. *)
Lemma Run_unfold o s :
  Run ext o s =
  match resolve_answer ext o s with
  | Failed e => (Failed e, after [resolve_call o] (cluster s) (Out s) s)
  | Ok sn =>
    match construct_answer ext o s sn with
    | Failed e =>
        (Failed e, after [resolve_call o; construct_call o sn] (cluster s) (Out s) s)
    | Ok route =>
      let built := configure o route in
      match annotate_answer ext o built with
      | Failed e =>
          (Failed e,
           after [resolve_call o; construct_call o sn; annotate_call o built]
             (cluster s) (Out s) s)
      | Ok a =>
        let obj := annotated o route a in
        if decide (DryRunStrategy (SubcommandOptions o) = DryRunClient)
        then
          (match (print_answer o obj).2 with None => Ok () | Some e => Failed e end,
           after [resolve_call o; construct_call o sn; annotate_call o built;
                  CallPrintObj obj]
             (cluster s) (Out s ++ (print_answer o obj).1) s)
        else
          match create_answer o s obj with
          | (Failed e, cl) =>
              (Failed e,
               after [resolve_call o; construct_call o sn; annotate_call o built;
                      create_call o obj] cl (Out s) s)
          | (Ok response, cl) =>
              (match (print_answer o response).2 with
               | None => Ok () | Some e => Failed e end,
               after [resolve_call o; construct_call o sn; annotate_call o built;
                      create_call o obj; CallPrintObj response]
                 cl (Out s ++ (print_answer o response).1) s)
          end
      end
    end
  end.
Proof.
  unfold Run, bind, resolveServiceName, UnsecuredRoute, CreateOrUpdateAnnotation,
    Routes_Create, Printer_PrintObj, ret, issue, after,
    resolve_answer, construct_answer, annotate_answer, create_answer, print_answer,
    resolve_call, construct_call, annotate_call, create_call.
  simpl.
  destruct (ext_resolveServiceName ext _ _ _) as [sn|e]; [|reflexivity].
  destruct (ext_UnsecuredRoute ext _ _ _ _ _ _ _ _) as [route|e];
    [|by rewrite <- ?app_assoc].
  destruct (ext_CreateOrUpdateAnnotation ext _ _) as [a|e];
    [|by rewrite <- ?app_assoc].
  destruct (decide (DryRunStrategy (SubcommandOptions o) = DryRunClient)) as [Hd|Hd].
  - rewrite bool_decide_eq_false_2 by (intros H; exact (H Hd)).
    simpl. destruct (PrintObj _ _) as [bytes [e|]]; simpl;
      by rewrite <- ?app_assoc.
  - rewrite bool_decide_eq_true_2 by exact Hd.
    destruct (Create _ _ _ _) as [[response|e] cl]; simpl;
      [|by rewrite <- ?app_assoc].
    destruct (PrintObj _ _) as [bytes [e|]]; simpl;
      by rewrite <- ?app_assoc.
Qed.

(** Follows [Run] along the path that the equations in the context
    select. *)
Ltac follow_Run :=
  rewrite Run_unfold; cbv zeta;
  repeat first
    [ match goal with
      | H : ?x = _ |- context [match ?x with _ => _ end] => rewrite H
      end
    | rewrite decide_True by done
    | rewrite decide_False by done ].

(** Whatever holds of the spec [configure] produces holds of every route
    [Run] hands on: annotation leaves the spec alone. *)
Lemma Run_local_objects o s (Q : RouteSpec → Prop) :
  (∀ sn route,
     resolve_answer ext o s = Ok sn → construct_answer ext o s sn = Ok route →
     Q (Spec (configure o route))) →
  Forall (λ c, ∀ obj,
            local_object (DryRunStrategy (SubcommandOptions o)) c = Some obj →
            Q (Spec obj))
         (issued s (Run ext o s).2).
Proof.
  intros HQ. rewrite Run_unfold.
  destruct (resolve_answer ext o s) as [sn|e] eqn:Hr; cbn [snd];
    [|rewrite issued_after; repeat constructor; intros obj [=]].
  destruct (construct_answer ext o s sn) as [route|e] eqn:Hc; cbn [snd];
    [|rewrite issued_after; repeat constructor; intros obj [=]].
  specialize (HQ sn route eq_refl Hc).
  destruct (annotate_answer ext o (configure o route)) as [a|e]; cbn [snd];
    [|rewrite issued_after; repeat constructor; intros obj [=]; by subst].
  cbv zeta.
  destruct (decide (DryRunStrategy (SubcommandOptions o) = DryRunClient)) as [Hd|Hd].
  - cbn [snd]. rewrite issued_after.
    repeat constructor; cbn [local_object]; intros obj; try (intros [=]; by subst).
    rewrite decide_True by done. intros [=]; by subst.
  - destruct (create_answer o s _) as [[response|e] cl]; cbn [snd];
      rewrite issued_after; repeat constructor; cbn [local_object]; intros obj;
      try (intros [=]; by subst).
    rewrite decide_False by done. intros [=].
Qed.

(** What holds of every spec [configure] produces holds of what [Run]
    hands on, and [Run] does hand it on. *)
Lemma Run_hands_on o s (Q : RouteSpec → Prop) :
  (∀ route, Q (Spec (configure o route))) → hands_on ext o s Q.
Proof.
  intros HQ sn route Hr Hc. split; [|split; [apply HQ|]].
  - follow_Run.
    destruct (annotate_answer ext o (configure o route)) as [a|e];
      [destruct (decide (DryRunStrategy (SubcommandOptions o) = DryRunClient));
       [|destruct (create_answer o s _) as [[response|e] cl]]|];
      cbn [snd]; rewrite issued_after, !elem_of_cons; auto.
  - intros a Ha obj. split; [apply HQ|]. subst obj.
    destruct (decide (DryRunStrategy (SubcommandOptions o) = DryRunClient)).
    + follow_Run. cbn [snd]. rewrite issued_after, !elem_of_cons. auto 10.
    + follow_Run. destruct (create_answer o s _) as [[response|e] cl];
        cbn [snd]; rewrite issued_after, !elem_of_cons; auto 10.
Qed.

(** C1.  Every route [Run] hands to the annotation helper, to [Create] and
    (under client dry-run) to the printer carries a TLS config whose
    termination mode is the passthrough constant, whatever the service
    and the other options are; and once the route is constructed, the
    annotation helper is called with the route so configured. *)
Theorem Run_termination_passthrough o s :
  Forall (λ c, ∀ obj,
            local_object (DryRunStrategy (SubcommandOptions o)) c = Some obj →
            Termination <$> TLS (Spec obj) = Some TLSTerminationPassthrough)
         (issued s (Run ext o s).2) ∧
  (∀ sn route,
     resolve_answer ext o s = Ok sn →
     construct_answer ext o s sn = Ok route →
     annotate_call o (configure o route) ∈ issued s (Run ext o s).2).
Proof.
  split.
  - apply Run_local_objects with (Q := λ sp, Termination <$> TLS sp = Some _).
    intros sn route _ _. by rewrite configure_Spec.
  - intros sn route Hr Hc. follow_Run.
    destruct (annotate_answer ext o (configure o route)) as [a|e];
      [destruct (decide (DryRunStrategy (SubcommandOptions o) = DryRunClient));
       [|destruct (create_answer o s _) as [[response|e] cl]]|];
      cbn [snd]; rewrite issued_after, !elem_of_cons; auto.
Qed.

(** C9.  After construction [Run] replaces the TLS config by a freshly
    allocated one: the configured route goes to the annotation helper and,
    annotated, to [Create] (or the printer under client dry-run), and the
    TLS config of every route [Run] so hands on has termination
    passthrough, the insecure policy when the option is non-empty, and
    certificate, key, CA certificate and destination CA certificate at
    their zero values, whatever TLS config the constructed route came
    with. *)
Theorem Run_TLS_fresh o s :
  let fresh :=
    Some {| Termination := TLSTerminationPassthrough;
            Certificate := ""; Key := ""; CACertificate := "";
            DestinationCACertificate := "";
            InsecureEdgeTerminationPolicy :=
              if bool_decide (0 < String.length (InsecurePolicy o))
              then InsecurePolicy o else "" |} in
  Forall (λ c, ∀ obj,
            local_object (DryRunStrategy (SubcommandOptions o)) c = Some obj →
            TLS (Spec obj) = fresh)
         (issued s (Run ext o s).2) ∧
  hands_on ext o s (λ sp, TLS sp = fresh).
Proof.
  cbv zeta. split.
  - apply Run_local_objects with (Q := λ sp, TLS sp = Some _).
    intros sn route _ _. by rewrite configure_Spec.
  - apply Run_hands_on. intros route. by rewrite configure_Spec.
Qed.

(** C6, as amended.  [Run] assigns the [Hostname] option to the host
    unconditionally: the route it hands to the annotation helper and
    submits to [Create], and under client dry-run hands to the printer,
    has that host, and so has every route it hands on in these ways. *)
Theorem Run_Host_is_Hostname o s :
  Forall (λ c, ∀ obj,
            local_object (DryRunStrategy (SubcommandOptions o)) c = Some obj →
            Host (Spec obj) = Hostname o)
         (issued s (Run ext o s).2) ∧
  hands_on ext o s (λ sp, Host sp = Hostname o).
Proof.
  split.
  - apply Run_local_objects with (Q := λ sp, Host sp = _).
    intros sn route _ _. by rewrite configure_Spec.
  - apply Run_hands_on. intros route. by rewrite configure_Spec.
Qed.

(** C5.  With an empty [WildcardPolicy] option, the wildcard policy of
    every route [Run] hands on is the one [route.UnsecuredRoute] returned:
    [Run] does not assign it, so it is the zero value whenever the
    constructor left it there. *)
Theorem Run_leaves_WildcardPolicy o s sn route :
  create.WildcardPolicy o = "" →
  resolve_answer ext o s = Ok sn →
  construct_answer ext o s sn = Ok route →
  let handed_on (w : WildcardPolicyType) :=
    Forall (λ c, ∀ obj,
              local_object (DryRunStrategy (SubcommandOptions o)) c = Some obj →
              routev1.WildcardPolicy (Spec obj) = w)
           (issued s (Run ext o s).2) in
  handed_on (routev1.WildcardPolicy (Spec route)) ∧
  (routev1.WildcardPolicy (Spec route) = "" → handed_on "").
Proof.
  intros Hw Hr Hc handed_on.
  assert (handed_on (routev1.WildcardPolicy (Spec route))) as H.
  { apply Run_local_objects with (Q := λ sp, routev1.WildcardPolicy sp = _).
    intros sn' route' Hr' Hc'.
    rewrite Hr in Hr'. injection Hr' as <-.
    rewrite Hc in Hc'. injection Hc' as <-.
    rewrite configure_Spec, Hw. reflexivity. }
  split; [exact H|]. intros <-. exact H.
Qed.

(** C8, as amended.  [Run] does not validate the two policy options: a
    non-empty [WildcardPolicy] or [InsecurePolicy], whatever string it is,
    is the value of the field in the route that [Run] hands to the
    annotation helper and submits to [Create] (or prints under client
    dry-run), and in every route it hands on in these ways.  [Run] raises
    no error of its own: an error it returns is always one that a call it
    issued returned. *)
Theorem Run_policies_unvalidated o s :
  let verbatim (sp : RouteSpec) :=
    (0 < String.length (create.WildcardPolicy o) →
     routev1.WildcardPolicy sp = create.WildcardPolicy o) ∧
    (0 < String.length (InsecurePolicy o) →
     InsecureEdgeTerminationPolicy <$> TLS sp = Some (InsecurePolicy o)) in
  Forall (λ c, ∀ obj,
            local_object (DryRunStrategy (SubcommandOptions o)) c = Some obj →
            verbatim (Spec obj))
         (issued s (Run ext o s).2) ∧
  hands_on ext o s verbatim ∧
  (∀ e, returned (Run ext o s).1 = Some e →
        fails_before_printing ext o s e ∨
        ∃ obj, CallPrintObj obj ∈ issued s (Run ext o s).2 ∧
               (print_answer o obj).2 = Some e).
Proof.
  cbv zeta.
  assert (∀ route,
            (0 < String.length (create.WildcardPolicy o) →
             routev1.WildcardPolicy (Spec (configure o route)) =
             create.WildcardPolicy o) ∧
            (0 < String.length (InsecurePolicy o) →
             InsecureEdgeTerminationPolicy <$> TLS (Spec (configure o route)) =
             Some (InsecurePolicy o))) as Hconfigure.
  { intros route. rewrite configure_Spec; simpl. split; intros H.
    + by rewrite bool_decide_eq_true_2.
    + by rewrite bool_decide_eq_true_2. }
  split; [|split].
  - apply Run_local_objects with
      (Q := λ sp, (_ → routev1.WildcardPolicy sp = _) ∧
                  (_ → InsecureEdgeTerminationPolicy <$> TLS sp = Some _)).
    intros sn route _ _. apply Hconfigure.
  - by apply (Run_hands_on o s
       (λ sp, (0 < String.length (create.WildcardPolicy o) →
               routev1.WildcardPolicy sp = create.WildcardPolicy o) ∧
              (0 < String.length (InsecurePolicy o) →
               InsecureEdgeTerminationPolicy <$> TLS sp = Some (InsecurePolicy o)))).
  - intros e. unfold fails_before_printing. rewrite Run_unfold.
    destruct (resolve_answer ext o s) as [sn|e1] eqn:Hr; cbn [fst snd returned];
      [|intros [= ->]; left; by left].
    destruct (construct_answer ext o s sn) as [route|e1] eqn:Hc;
      cbn [fst snd returned];
      [|intros [= ->]; left; right; eauto].
    destruct (annotate_answer ext o (configure o route)) as [a|e1] eqn:Ha;
      cbn [fst snd returned];
      [|intros [= ->]; left; right; eexists; split; [done|]; right; eauto].
    cbv zeta.
    destruct (decide (DryRunStrategy (SubcommandOptions o) = DryRunClient)) as [Hd|Hd].
    + cbn [fst snd]. rewrite issued_after.
      destruct (print_answer o _).2 as [e1|] eqn:Hp; cbn [returned]; [|done].
      intros [= ->]. right. eexists; split; [|exact Hp].
        rewrite !elem_of_cons; auto 10.
    + destruct (create_answer o s _) as [[response|e1] cl] eqn:Hcr; cbn [fst snd].
      * rewrite issued_after.
        destruct (print_answer o response).2 as [e1|] eqn:Hp; cbn [returned]; [|done].
        intros [= ->]. right. eexists; split; [|exact Hp].
        rewrite !elem_of_cons; auto 10.
      * cbn [returned]. intros [= ->]. left; right.
        exists sn; split; [done|]. right.
        exists route; split; [done|]. right.
        exists a; split; [done|]. split; [done|]. by rewrite Hcr.
Qed.

(** C3.  An error from any of the five steps is what [Run] returns, as it
    is, and ends the invocation: the calls issued are those up to the
    failing one, each issued once. *)
Theorem Run_returns_first_error o s :
  (∀ e, resolve_answer ext o s = Failed e →
        Run ext o s = (Failed e, after [resolve_call o] (cluster s) (Out s) s)) ∧
  (∀ sn e, resolve_answer ext o s = Ok sn →
        construct_answer ext o s sn = Failed e →
        Run ext o s =
        (Failed e, after [resolve_call o; construct_call o sn] (cluster s) (Out s) s)) ∧
  (∀ sn route e, resolve_answer ext o s = Ok sn →
        construct_answer ext o s sn = Ok route →
        annotate_answer ext o (configure o route) = Failed e →
        Run ext o s =
        (Failed e,
         after [resolve_call o; construct_call o sn; annotate_call o (configure o route)]
           (cluster s) (Out s) s)) ∧
  (∀ sn route a e cl, resolve_answer ext o s = Ok sn →
        construct_answer ext o s sn = Ok route →
        annotate_answer ext o (configure o route) = Ok a →
        DryRunStrategy (SubcommandOptions o) ≠ DryRunClient →
        create_answer o s (annotated o route a) = (Failed e, cl) →
        Run ext o s =
        (Failed e,
         after [resolve_call o; construct_call o sn; annotate_call o (configure o route);
                create_call o (annotated o route a)] cl (Out s) s)) ∧
  (∀ sn route a e, resolve_answer ext o s = Ok sn →
        construct_answer ext o s sn = Ok route →
        annotate_answer ext o (configure o route) = Ok a →
        (DryRunStrategy (SubcommandOptions o) = DryRunClient →
         (print_answer o (annotated o route a)).2 = Some e →
         Run ext o s =
         (Failed e,
          after [resolve_call o; construct_call o sn; annotate_call o (configure o route);
                 CallPrintObj (annotated o route a)]
            (cluster s) (Out s ++ (print_answer o (annotated o route a)).1) s)) ∧
        (∀ response cl,
         DryRunStrategy (SubcommandOptions o) ≠ DryRunClient →
         create_answer o s (annotated o route a) = (Ok response, cl) →
         (print_answer o response).2 = Some e →
         Run ext o s =
         (Failed e,
          after [resolve_call o; construct_call o sn; annotate_call o (configure o route);
                 create_call o (annotated o route a); CallPrintObj response]
            cl (Out s ++ (print_answer o response).1) s))).
Proof.
  repeat split; intros; by follow_Run.
Qed.

(** C10.  When resolution, construction, annotation or the create request
    fails, [Run] returns that error, the printer is not called, and the
    output stream holds what it held before. *)
Theorem Run_error_withholds_output o s e :
  fails_before_printing ext o s e →
  returned (Run ext o s).1 = Some e ∧
  existsb is_PrintObj (issued s (Run ext o s).2) = false ∧
  Out (Run ext o s).2 = Out s.
Proof.
  unfold fails_before_printing.
  intros [Hr|(sn & Hr & [Hc|(route & Hc & [Ha|(a & Ha & Hd & Hcr)])])];
    follow_Run; cbn [fst snd]; rewrite ?issued_after; try done.
  destruct (create_answer o s _) as [[response|e1] cl]; simpl in Hcr; [done|].
  injection Hcr as ->. cbn [fst snd]. by rewrite issued_after.
Qed.

(** C4, as amended.  No invocation issues [Create] or changes the cluster
    under client dry-run.  An invocation that gets past annotation issues
    [Create] exactly when the strategy is not client dry-run, once, for
    the annotated route and with empty options; it then hands the printer
    the server's response when the route was created and the annotated
    route under client dry-run, and the printer's bytes are appended to
    the output stream. *)
Theorem Run_creates_unless_client_dry_run o s :
  let dry := DryRunStrategy (SubcommandOptions o) in
  let s' := (Run ext o s).2 in
  (dry = DryRunClient →
     existsb is_Create (issued s s') = false ∧ cluster s' = cluster s) ∧
  (∀ sn route a,
     resolve_answer ext o s = Ok sn →
     construct_answer ext o s sn = Ok route →
     annotate_answer ext o (configure o route) = Ok a →
     let obj := annotated o route a in
     (existsb is_Create (issued s s') = true ↔ dry ≠ DryRunClient) ∧
     (dry ≠ DryRunClient →
        filter (λ c, is_Create c) (issued s s') = [create_call o obj] ∧
        cluster s' = (create_answer o s obj).2) ∧
     (dry = DryRunClient →
        printed (issued s s') = Some obj ∧
        Out s' = Out s ++ (print_answer o obj).1) ∧
     (∀ response cl,
        dry ≠ DryRunClient →
        create_answer o s obj = (Ok response, cl) →
        printed (issued s s') = Some response ∧
        Out s' = Out s ++ (print_answer o response).1)).
Proof.
  cbv zeta. split.
  - intros Hd. rewrite Run_unfold.
    destruct (resolve_answer ext o s) as [sn|e]; cbn [snd];
      [|by rewrite issued_after].
    destruct (construct_answer ext o s sn) as [route|e]; cbn [snd];
      [|by rewrite issued_after].
    destruct (annotate_answer ext o (configure o route)) as [a|e]; cbn [snd];
      [|by rewrite issued_after].
    rewrite decide_True by done. cbn [snd]. by rewrite issued_after.
  - intros sn route a Hr Hc Ha.
    destruct (decide (DryRunStrategy (SubcommandOptions o) = DryRunClient)) as [Hd|Hd].
    + follow_Run. cbn [snd]. rewrite issued_after. by repeat split.
    + follow_Run.
      destruct (create_answer o s _) as [[response|e] cl]; cbn [snd];
        rewrite issued_after; repeat split; try done.
      all: by simplify_eq.
Qed.

End Run_properties.

(** * Properties of the command *)

Section Flag_properties.

Import pflag cobra.

Implicit Types (f : Flag) (fs : FlagSet) (ts : list Token).

Lemma modify_keeps_others name (g : Flag → Flag) f fs :
  f ∈ fs → Name f ≠ name → f ∈ modify name g fs.
Proof.
  intros Hin Hne. induction fs as [|f' fs IH]; simpl; [done|].
  apply elem_of_cons in Hin as [->|Hin].
  - rewrite decide_False by done. by left.
  - destruct (decide (Name f' = name)); right; auto.
Qed.

Lemma Set_keeps_awaited name n v fs fs' :
  n ≠ name → Set_ n v fs = Ok fs' → awaits name fs → awaits name fs'.
Proof.
  intros Hne HS (f & Hin & Hn & Hreq & Hch). unfold Set_ in HS.
  destruct (Lookup n fs) as [f0|]; [|done].
  destruct (SetValue f0 v) as [v'|]; [|done].
  injection HS as <-. exists f. split; [|done].
  apply modify_keeps_others; [done|congruence].
Qed.

Lemma Parse_keeps_awaited name ts : ∀ fs fs' args,
  supplied name ts = false → Parse ts fs = Ok (fs', args) →
  awaits name fs → awaits name fs'.
Proof.
  induction ts as [|[n v|a] ts IH]; intros fs fs' args Hs HP Hw; simpl in *.
  - by injection HP as <- <-.
  - apply orb_false_iff in Hs as [Hn Hs]. apply bool_decide_eq_false in Hn.
    destruct (Set_ n v fs) as [fs1|] eqn:HS; [|done].
    eapply IH; [done|exact HP|]. by eapply Set_keeps_awaited.
  - destruct (Parse ts fs) as [[fs1 args1]|] eqn:HP1; [|done].
    injection HP as <- <-. by eapply IH.
Qed.

Lemma awaited_is_missing name fs :
  awaits name fs → name ∈ missingRequiredFlags fs.
Proof.
  intros (f & Hin & <- & Hreq & Hch). unfold missingRequiredFlags.
  apply list_elem_of_fmap. exists f. split; [done|].
  apply list_elem_of_filter. split; [|done]. by rewrite Hreq, Hch.
Qed.

Lemma AddFlag_keeps_awaited name f fs fs' :
  AddFlag f fs = Some fs' → awaits name fs → awaits name fs'.
Proof.
  unfold AddFlag. destruct (Lookup (Name f) fs); [done|].
  intros [= <-] (f0 & Hin & H). exists f0. split; [|done].
  apply elem_of_app. by left.
Qed.

Lemma Lookup_snoc name f fs :
  Lookup name fs = None →
  Lookup name (fs ++ [f])%list = if decide (Name f = name) then Some f else None.
Proof.
  induction fs as [|f' fs IH]; simpl; [done|].
  destruct (decide (Name f' = name)); [done|exact IH].
Qed.

Lemma modify_snoc name (g : Flag → Flag) f fs :
  Lookup name fs = None →
  modify name g (fs ++ [f])%list =
  (fs ++ (if decide (Name f = name) then [g f] else [f]))%list.
Proof.
  induction fs as [|f' fs IH]; simpl.
  - by destruct (decide (Name f = name)).
  - destruct (decide (Name f' = name)); [done|]. intros H. by rewrite IH.
Qed.

(** Marking a flag required right after registering it takes effect. *)
Lemma mark_after_add {T} f fs fs' (c : Command T) :
  AddFlag f fs = Some fs' → Changed f = false →
  awaits (Name f) (Flags (MarkFlagRequired (Name f) (with_Flags fs' c)).1).
Proof.
  unfold AddFlag. destruct (Lookup (Name f) fs) eqn:HL; [done|].
  intros [= <-] Hch. unfold MarkFlagRequired, SetAnnotation. cbn [Flags with_Flags].
  rewrite Lookup_snoc, decide_True by done. cbn [fst Flags with_Flags].
  rewrite modify_snoc, decide_True by done.
  eexists. split; [apply elem_of_app; right; apply list_elem_of_singleton; reflexivity|].
  cbn. split; [done|]. split; [|done].
  unfold is_required. cbn. by rewrite lookup_insert_eq.
Qed.

End Flag_properties.

Section Command_properties.

Import pflag cobra create.

Context {error Cluster RESTMapper CoreV1Interface : Type}.
Variable ext : @Externals error Cluster RESTMapper CoreV1Interface.

Lemma AddFlags_panics (flags : list Flag) :
  foldl (λ acc f, acc ≫= AddFlag f) None flags = None.
Proof. induction flags as [|f flags IH]; simpl; [done|exact IH]. Qed.

Lemma AddFlags_keeps_awaited name (flags : list Flag) : ∀ (fs fs' : FlagSet),
  AddFlags flags fs = Some fs' → awaits name fs → awaits name fs'.
Proof.
  unfold AddFlags. induction flags as [|f flags IH]; intros fs fs' H Hw; simpl in H.
  - by injection H as <-.
  - destruct (AddFlag f fs) as [fs1|] eqn:HA.
    + eapply IH; [exact H|]. by eapply AddFlag_keeps_awaited.
    + by rewrite AddFlags_panics in H.
Qed.

(** The command is built with a required [service] flag that is not set:
    [MarkFlagRequired] comes after the flag is registered, so it finds it,
    and the flags registered later leave it alone. *)
Lemma NewCmd_awaits_service (cmd : Command (M ())) :
  NewCmdCreatePassthroughRoute ext = Some cmd → awaits "service" (Flags cmd).
Proof.
  unfold NewCmdCreatePassthroughRoute. intros H.
  destruct (StringVar "hostname" "" _) as [fs1|]; cbn -[AddFlags] in H; [|done].
  destruct (StringVar "port" "" fs1) as [fs2|]; cbn -[AddFlags] in H; [|done].
  destruct (StringVar "insecure-policy" "" fs2) as [fs3|];
    cbn -[AddFlags] in H; [|done].
  destruct (StringVar "service" "" fs3) as [fs4|] eqn:Hservice;
    cbn -[AddFlags MarkFlagRequired] in H; [|done].
  match type of H with
  | context [MarkFlagRequired "service" ?c] =>
      assert (awaits "service" (Flags (MarkFlagRequired "service" c).1)) as Hw
        by exact (mark_after_add _ _ _ c Hservice eq_refl);
      destruct (MarkFlagRequired "service" c) as [marked ignored]
  end.
  cbn -[AddFlags] in H, Hw.
  destruct (StringVar "wildcard-policy" "" _) as [fs5|] eqn:H5;
    cbn -[AddFlags] in H; [|done].
  destruct (AddFlags (ext_ValidateFlags ext) fs5) as [fs6|] eqn:H6;
    cbn -[AddFlags] in H; [|done].
  destruct (AddFlags (ext_SubcommandFlags ext) fs6) as [fs7|] eqn:H7;
    cbn -[AddFlags] in H; [|done].
  destruct (AddFlags (ext_DryRunFlag ext) fs7) as [fs8|] eqn:H8;
    cbn -[AddFlags] in H; [|done].
  injection H as <-. cbn [Flags with_Flags].
  eapply AddFlags_keeps_awaited; [exact H8|].
  eapply AddFlags_keeps_awaited; [exact H7|].
  eapply AddFlags_keeps_awaited; [exact H6|].
  eapply AddFlag_keeps_awaited; [exact H5|]. exact Hw.
Qed.

(** The default help flag leaves an awaited flag as it is. *)
Lemma InitDefaultHelpFlag_keeps_awaited {T} name (c : Command T) :
  awaits name (Flags c) → awaits name (Flags (InitDefaultHelpFlag c)).
Proof.
  unfold InitDefaultHelpFlag. destruct (Lookup "help" (Flags c)); [done|].
  intros (f & Hin & H). exists f. split; [|done].
  cbn [Flags with_Flags]. apply elem_of_app. by left.
Qed.

(** C2, as amended.  A command line without [--service] does not reach the
    closure: neither [Complete] nor [Run] is called and the state is as it
    was.  Unless help is asked for, in which case the help text is shown
    and no error is returned, the command ends with an error: the parse
    error if the command line does not parse, the error of a [help] flag
    that a helper registered with another type than bool, and otherwise
    the required-flag error naming [service]. *)
Theorem missing_service_flag_never_runs (cmd : Command (M ())) (a : list Token)
    (s : @State Cluster) :
  NewCmdCreatePassthroughRoute ext = Some cmd →
  supplied "service" a = false →
  (Execute cmd a s).2 = s ∧
  issued s (Execute cmd a s).2 = [] ∧
  match Parse a (Flags (InitDefaultHelpFlag cmd)) with
  | Failed err => (Execute cmd a s).1 = ExitFlagError err
  | Ok (fs, _) =>
      match GetBool "help" fs with
      | Some true => (Execute cmd a s).1 = ExitHelp
      | None => (Execute cmd a s).1 = ExitHelpFlagError
      | Some false =>
          ∃ missing, "service" ∈ missing ∧
                     (Execute cmd a s).1 = ExitRequiredFlagsNotSet missing
      end
  end.
Proof.
  intros Hcmd Hs. apply NewCmd_awaits_service in Hcmd.
  apply (InitDefaultHelpFlag_keeps_awaited "service") in Hcmd.
  assert (issued s s = []) as Hnone by (unfold issued; apply drop_all).
  unfold Execute, execute. cbv zeta.
  destruct (Parse a (Flags (InitDefaultHelpFlag cmd))) as [[fs args]|err] eqn:HP;
    cbn [fst snd]; [|done].
  destruct (GetBool "help" fs) as [[|]|]; cbn [fst snd]; try done.
  assert ("service" ∈ missingRequiredFlags fs) as Hm.
  { apply awaited_is_missing. by eapply Parse_keeps_awaited. }
  destruct (missingRequiredFlags fs) as [|m ms] eqn:Hmiss.
  - by apply elem_of_nil in Hm.
  - cbn [fst snd]. split; [done|]. split; [done|]. eauto.
Qed.

End Command_properties.

(** * Properties of the shim *)

Section Shim_properties.

Import cli.

Context {error Func SpecialVerbs : Type}.
Variable imp : @Imports error Func SpecialVerbs.

Implicit Types (p q : @Process error Func SpecialVerbs).
Implicit Types (g : @Globals error Func SpecialVerbs).
Implicit Types (f : @Globals error Func SpecialVerbs → @Globals error Func SpecialVerbs).

Lemma environ_assign f p :
  environ (assign f p) = environ p.
Proof. reflexivity. Qed.

Lemma getenv_calls_assign f p :
  getenv_calls (assign f p) = getenv_calls p.
Proof. reflexivity. Qed.

Lemma globals_assign f p :
  globals (assign f p) = f (globals p).
Proof. reflexivity. Qed.

Lemma ClusterDefaults_wrap (h : Hook) g :
  kclientcmd_ClusterDefaults (wrap imp h g) = kclientcmd_ClusterDefaults g.
Proof. reflexivity. Qed.

(** The shim as one pass over the process: a single [os.Getenv], then
    assignments to the package variables. *)
Lemma shimKubectlForOc_unfold p :
  shimKubectlForOc imp p =
  let master := default "" (environ p !! "KUBERNETES_MASTER") in
  let assignments :=
    foldr (λ h k g, k (wrap imp h g)) id
      [AttachablePodForObjectFn; CanBeExposedFn; HistoryViewerFn; LogsForObjectFn;
       MapBasedSelectorForObjectFn; ObjectPauserFn; ObjectResumerFn;
       PortsForObjectFn; ProtocolsForObjectFn; RollbackerFn; StatusViewerFn;
       UpdatePodSpecForObjectFn; GeneratorFn; DescriberFn] in
  {| environ := environ p;
     getenv_calls := getenv_calls p ++ ["KUBERNETES_MASTER"];
     globals :=
       assignments
         (set_UseModifyConfigLock false
            (AddSpecialVerb imp "use"
               {| schema.Group := "security.openshift.io";
                  schema.Resource := "securitycontextconstraints" |}
               (set_ParseDockerImageReferenceToStringFunc
                  (clientcmd_ParseDockerImageReferenceToStringFunc imp)
                  (set_ClusterDefaults
                     {| kclientcmdapi.Server := master;
                        kclientcmdapi.InsecureSkipTLSVerify := false;
                        kclientcmdapi.CertificateAuthority := "" |}
                     (set_ErrEmptyConfig (genericclioptions_ErrEmptyConfig imp)
                        (globals p)))))) |}.
Proof. reflexivity. Qed.

(** C7.  [shimKubectlForOc] asks the environment for one name,
    [KUBERNETES_MASTER], and makes its value (the empty string when unset)
    the server of [kclientcmd.ClusterDefaults]; nothing else of the
    environment bears on the variables it assigns. *)
Theorem shimKubectlForOc_reads_KUBERNETES_MASTER p :
  let p' := shimKubectlForOc imp p in
  getenv_calls p' = (getenv_calls p ++ ["KUBERNETES_MASTER"])%list ∧
  kclientcmdapi.Server (kclientcmd_ClusterDefaults (globals p')) =
    default "" (environ p !! "KUBERNETES_MASTER") ∧
  environ p' = environ p ∧
  (∀ q,
     globals q = globals p →
     environ q !! "KUBERNETES_MASTER" = environ p !! "KUBERNETES_MASTER" →
     globals (shimKubectlForOc imp q) = globals p').
Proof.
  cbv zeta. rewrite shimKubectlForOc_unfold. cbv zeta. cbn [environ getenv_calls globals].
  split; [reflexivity|]. split.
  { cbn [foldr id]. by rewrite !ClusterDefaults_wrap. }
  split; [reflexivity|].
  intros q Hg He. rewrite shimKubectlForOc_unfold. cbv zeta. cbn [globals].
  by rewrite Hg, He.
Qed.

End Shim_properties.

(** * The theorems on the test double *)

Section On_the_test_double.

Import metav1 routev1 kcmdutil pflag cobra create fake.

(** [oc create route passthrough my-route --service=frontend
    --hostname=www.example.com] against the storing server. *)
Example Run_frontend :
  let o := options (subcommand storing name_printer "my-route" DryRunNone)
             "frontend" "www.example.com" "" "" in
  let '(r, s') := Run ext o start in
  returned r = None ∧
  is_Create <$> issued start s' = [false; false; false; true; false] ∧
  (Host ∘ Spec) <$> cluster s' = ["www.example.com"] ∧
  Out s' = "route.route.openshift.io/my-route".
Proof. vm_compute. done. Qed.

(** C6, the claim as stated fails.  With no host name asked for, the
    allocating server answers with the host it picked, and that answer is
    what [Run] prints: the printed route's host is not the [Hostname]
    option. *)
Lemma Run_printed_Host_differs :
  let o := options (subcommand allocating name_printer "" DryRunNone)
             "frontend" "" "" "" in
  let s' := (Run ext o start).2 in
  Hostname o = "" ∧
  (Host ∘ Spec) <$> printed (issued start s') = Some "frontend.apps.example.com" ∧
  (Host ∘ Spec) <$> printed (issued start s') ≠ Some (Hostname o).
Proof. vm_compute. by repeat split. Qed.

(** C4, the claim as stated fails.  The strategy is not client dry-run,
    yet no [Create] is issued: resolution fails first, with no service
    named. *)
Lemma Run_no_Create_after_failed_resolution :
  let o := options (subcommand storing name_printer "my-route" DryRunNone)
             "" "" "" "" in
  let '(r, s') := Run ext o start in
  DryRunStrategy (SubcommandOptions o) = DryRunNone ∧
  existsb is_Create (issued start s') = false ∧
  returned r = Some "you need to provide a service name via --service".
Proof. vm_compute. by repeat split. Qed.

(** C4 on the test double: no route is stored under client dry-run, one
    under no dry-run. *)
Lemma Run_creates_unless_client_dry_run_witness :
  let dry_run := options (subcommand storing name_printer "my-route" DryRunClient)
                   "frontend" "" "" "" in
  let create := options (subcommand storing name_printer "my-route" DryRunNone)
                  "frontend" "" "" "" in
  (existsb is_Create (issued start (Run ext dry_run start).2) = false ∧
   cluster (Run ext dry_run start).2 = cluster start) ∧
  length (filter (λ c, is_Create c) (issued start (Run ext create start).2)) = 1 ∧
  length (cluster (Run ext create start).2) = 1.
Proof.
  cbv zeta. split.
  - exact (proj1 (Run_creates_unless_client_dry_run ext
                    (options (subcommand storing name_printer "my-route" DryRunClient)
                       "frontend" "" "" "") start) eq_refl).
  - pose proof (proj2 (Run_creates_unless_client_dry_run ext
                    (options (subcommand storing name_printer "my-route" DryRunNone)
                       "frontend" "" "" "") start)
                  "frontend" _ _ eq_refl eq_refl eq_refl) as (_ & H & _).
    destruct H as [-> ->]; [done|]. split; reflexivity.
Defined.

(** C3 on the test double: the refusing server's error is what [Run]
    returns, after four calls. *)
Lemma Run_returns_first_error_witness :
  let o := options (subcommand refusing name_printer "my-route" DryRunNone)
             "frontend" "" "" "" in
  (Run ext o start).1 = Failed "forbidden" ∧
  length (calls (Run ext o start).2) = 4.
Proof.
  cbv zeta.
  pose proof (Run_returns_first_error ext
    (options (subcommand refusing name_printer "my-route" DryRunNone)
       "frontend" "" "" "") start) as (_ & _ & _ & H & _).
  erewrite H; [split; reflexivity|reflexivity|reflexivity|reflexivity|done|reflexivity].
Defined.

(** A printer that fails half-way: its error is what [Run] returns, after
    the route was stored, and what it wrote stays on the stream. *)
Example Run_print_failure :
  let o := options (subcommand storing broken_printer "my-route" DryRunNone)
             "frontend" "" "" "" in
  let '(r, s') := Run ext o start in
  returned r = Some "short write" ∧ length (cluster s') = 1 ∧ Out s' = "route.".
Proof. vm_compute. done. Qed.

(** C5 on the test double: the constructor leaves the wildcard policy at
    its zero value, and so does [Run]. *)
Lemma Run_leaves_WildcardPolicy_witness :
  let o := options (subcommand storing name_printer "my-route" DryRunNone)
             "frontend" "" "" "" in
  create.WildcardPolicy o = "" ∧
  Forall (λ c, ∀ obj,
            local_object (DryRunStrategy (SubcommandOptions o)) c = Some obj →
            routev1.WildcardPolicy (Spec obj) = "")
         (issued start (Run ext o start).2).
Proof.
  cbv zeta. split; [reflexivity|].
  refine (proj2 (Run_leaves_WildcardPolicy ext
                   (options (subcommand storing name_printer "my-route" DryRunNone)
                      "frontend" "" "" "")
                   start "frontend" _ eq_refl eq_refl eq_refl) eq_refl).
Defined.

(** C10 on the test double: the service is missing and no port is given,
    so construction fails and nothing is printed. *)
Lemma Run_error_withholds_output_witness :
  let o := options (subcommand storing name_printer "my-route" DryRunNone)
             "missing" "" "" "" in
  let e := "you need to provide a route port via --port" in
  fails_before_printing ext o start e ∧
  returned (Run ext o start).1 = Some e ∧
  existsb is_PrintObj (issued start (Run ext o start).2) = false ∧
  Out (Run ext o start).2 = Out start.
Proof.
  cbv zeta.
  assert (fails_before_printing ext
            (options (subcommand storing name_printer "my-route" DryRunNone)
               "missing" "" "" "") start
            "you need to provide a route port via --port") as H.
  { right. exists "missing". split; [reflexivity|]. left. reflexivity. }
  split; [exact H|]. exact (Run_error_withholds_output ext _ start _ H).
Defined.

(** The same command line with and without [--service]. *)
Example Execute_passthrough :
  match NewCmdCreatePassthroughRoute ext with
  | Some cmd =>
      (Execute cmd [Arg "my-route"; Opt "hostname" "www.example.com"] start).1
        = ExitRequiredFlagsNotSet ["service"] ∧
      (Execute cmd [Arg "my-route"; Opt "service" "frontend";
                    Opt "hostname" "www.example.com"] start).1 = ExitOk ∧
      (Execute cmd [Arg "my-route"; Opt "service" "";
                    Opt "hostname" "www.example.com"] start).1
        = ExitFatal "you need to provide a service name via --service"
  | None => False
  end.
Proof. vm_compute. done. Qed.

End On_the_test_double.

(** * Further properties of [Run] *)

Section Run_frame.

Import metav1 routev1 kcmdutil create.

Context {error Cluster RESTMapper CoreV1Interface : Type}.
Variable ext : @Externals error Cluster RESTMapper CoreV1Interface.

Implicit Types (o : @CreatePassthroughRouteOptions error Cluster RESTMapper CoreV1Interface).
Implicit Types (s : @State Cluster) (obj route : Route) (e : error).

(** Splits [Run] into the paths it can take. *)
Ltac Run_paths o s :=
  rewrite Run_unfold; cbv zeta;
  let sn := fresh "sn" in
  let route := fresh "route" in
  let a := fresh "a" in
  let response := fresh "response" in
  let cl := fresh "cl" in
  destruct (resolve_answer ext o s) as [sn|?] eqn:Hresolve;
    [destruct (construct_answer ext o s sn) as [route|?] eqn:Hconstruct;
      [destruct (annotate_answer ext o (configure o route)) as [a|?] eqn:Hannotate;
        [destruct (decide (DryRunStrategy (SubcommandOptions o) = DryRunClient))
           as [Hdry|Hdry];
         [|destruct (create_answer o s (with_Annotations a (configure o route)))
             as [[response|?] cl] eqn:Hcreate]
        |]
      |]
    |];
  cbn [fst snd]; rewrite ?issued_after.

(** Takes [Run] down the path that the equations in the context select. *)
Ltac Run_path :=
  rewrite Run_unfold; cbv zeta;
  repeat match goal with
         | H : ?x = _ |- context [match ?x with _ => _ end] => rewrite H
         end.

(** Whatever holds of the configured route, with any annotations, holds of
    every route [Run] hands on. *)
Lemma Run_local_routes o s (Q : Route → Prop) :
  (∀ sn route,
     resolve_answer ext o s = Ok sn → construct_answer ext o s sn = Ok route →
     Q (configure o route) ∧ ∀ a, Q (with_Annotations a (configure o route))) →
  Forall (λ c, ∀ obj,
            local_object (DryRunStrategy (SubcommandOptions o)) c = Some obj → Q obj)
         (issued s (Run ext o s).2).
Proof.
  intros HQ. Run_paths o s;
    repeat (apply Forall_cons; split); try (by apply Forall_nil);
    cbn [local_object resolve_call construct_call annotate_call create_call];
    intros obj; rewrite ?decide_True, ?decide_False by done;
    intros [= <-];
    (edestruct HQ as [H1 H2]; [done|done|]); first [exact H1 | exact (H2 _)].
Qed.

(** X1.  Every create request [Run] sends goes to the namespace of the
    options and carries empty create options, whatever the dry-run
    strategy.  Under server dry-run in particular the request is sent like
    any other, with no dry-run directive, and the cluster is left as the
    server made it. *)
Theorem Run_Create_options_empty o s :
  Forall (λ c, match c with
               | CallCreate ns _ opts =>
                   ns = Namespace (SubcommandOptions o) ∧
                   DryRun opts = [] ∧ FieldManager opts = ""
               | _ => True
               end)
         (issued s (Run ext o s).2) ∧
  (∀ sn route a,
     resolve_answer ext o s = Ok sn →
     construct_answer ext o s sn = Ok route →
     annotate_answer ext o (configure o route) = Ok a →
     DryRunStrategy (SubcommandOptions o) = DryRunServer →
     let obj := with_Annotations a (configure o route) in
     create_call o obj ∈ issued s (Run ext o s).2 ∧
     cluster (Run ext o s).2 = (create_answer o s obj).2).
Proof.
  split.
  - Run_paths o s;
      repeat (apply Forall_cons; split); by try apply Forall_nil.
  - intros sn route a Hr Hc Ha Hd obj. subst obj. Run_path.
    rewrite decide_False by (rewrite Hd; done).
    destruct (create_answer o s _) as [[response|e] cl]; cbn [fst snd];
      rewrite issued_after, !elem_of_cons; auto 10.
Qed.

(** X2.  [Run] changes nothing of the constructed route but the host, the
    TLS config, the wildcard policy and the annotations: every route it
    hands on has the path, the target, the port, the name, the namespace
    and the labels that [route.UnsecuredRoute] returned. *)
Theorem Run_keeps_constructed_route o s sn route :
  resolve_answer ext o s = Ok sn →
  construct_answer ext o s sn = Ok route →
  Forall (λ c, ∀ obj,
            local_object (DryRunStrategy (SubcommandOptions o)) c = Some obj →
            Path (Spec obj) = Path (Spec route) ∧
            To (Spec obj) = To (Spec route) ∧
            routev1.Port (Spec obj) = routev1.Port (Spec route) ∧
            metav1.Name (Meta obj) = metav1.Name (Meta route) ∧
            metav1.Namespace (Meta obj) = metav1.Namespace (Meta route) ∧
            Labels (Meta obj) = Labels (Meta route))
         (issued s (Run ext o s).2).
Proof.
  intros Hr Hc. apply Run_local_routes.
  intros sn' route' Hr' Hc'.
  rewrite Hr in Hr'. injection Hr' as <-.
  rewrite Hc in Hc'. injection Hc' as <-.
  split; [|intros a]; cbn [with_Annotations Spec Meta metav1.set_Annotations
                             metav1.Name metav1.Namespace Labels];
    rewrite configure_Spec, configure_Meta; done.
Qed.

(** X3.  [Run] returns [nil] exactly when it has called the printer and the
    printer returned [nil]; the output stream then holds what it held
    before followed by what the printer wrote. *)
Theorem Run_succeeds_iff_printed o s :
  returned (Run ext o s).1 = None ↔
  ∃ obj, printed (issued s (Run ext o s).2) = Some obj ∧
         (print_answer o obj).2 = None ∧
         Out (Run ext o s).2 = Out s ++ (print_answer o obj).1.
Proof.
  Run_paths o s;
    unfold printed, resolve_call, construct_call, annotate_call, create_call;
    cbn [last returned];
    try (split; [by intros [=] | by intros (obj & [=] & _)]);
    destruct (print_answer o _).2 as [e|] eqn:Hp; cbn [returned]; split;
    first [ by intros [=]
          | by intros (obj & [= <-] & Hn & _); rewrite Hp in Hn
          | by intros _; eexists; repeat split ].
Qed.

(** X4.  [Run] always calls [resolveServiceName] first, and the calls it
    issues are an initial part of resolve, construct, annotate, create,
    print (with create left out under client dry-run): none is repeated,
    reordered or skipped over. *)
Theorem Run_call_order o s :
  head (kind <$> issued s (Run ext o s).2) = Some KResolveServiceName ∧
  kind <$> issued s (Run ext o s).2
    `prefix_of` call_order (DryRunStrategy (SubcommandOptions o)).
Proof.
  unfold call_order.
  Run_paths o s; (split; [reflexivity|]);
    rewrite ?decide_True, ?decide_False by done;
    unfold resolve_call, construct_call, annotate_call, create_call;
    cbn [fmap list_fmap kind];
    try destruct (decide (DryRunStrategy (SubcommandOptions o) = DryRunClient));
    repeat apply prefix_cons; apply prefix_nil.
Qed.

(** X5.  [Run] changes the cluster through [Create] only and the output
    stream through the printer only: without a create request the cluster
    is as before, with one it is as the server left it; without a call of
    the printer the stream is as before, with one it has grown by what the
    printer wrote. *)
Theorem Run_changes_by_calls o s :
  (existsb is_Create (issued s (Run ext o s).2) = false →
   cluster (Run ext o s).2 = cluster s) ∧
  (∀ ns obj opts, CallCreate ns obj opts ∈ issued s (Run ext o s).2 →
   cluster (Run ext o s).2 = (create_answer o s obj).2) ∧
  (existsb is_PrintObj (issued s (Run ext o s).2) = false →
   Out (Run ext o s).2 = Out s) ∧
  (∀ obj, CallPrintObj obj ∈ issued s (Run ext o s).2 →
   Out (Run ext o s).2 = Out s ++ (print_answer o obj).1).
Proof.
  Run_paths o s; (split; [|split; [|split]]); intros;
    unfold resolve_call, construct_call, annotate_call, create_call in *;
    cbn [after cluster Out existsb is_Create is_PrintObj orb] in *;
    repeat match goal with
           | H : _ ∈ _ :: _ |- _ => apply elem_of_cons in H as [H|H]
           | H : _ ∈ [] |- _ => by apply elem_of_nil in H
           end;
    simplify_eq; try done; by rewrite Hcreate.
Qed.

End Run_frame.

(** * Further properties of the command *)

Section Flag_lookup.

Import pflag cobra.

Implicit Types (f : Flag) (fs : FlagSet) (ts : list Token) (g : Flag → Flag).










End Flag_lookup.

Section Command_binding.

Import pflag cobra create.

Context {error Cluster RESTMapper CoreV1Interface : Type}.
Variable ext : @Externals error Cluster RESTMapper CoreV1Interface.

Implicit Types (f : Flag) (fs : FlagSet) (ts : list Token).

(** A string flag as [StringVar] registers it, with an empty default. *)
Local Abbreviation plain name :=
  {| pflag.Name := name; Value := ""; DefValue := ""; Changed := false;
     Annotations := ∅; SetValue := Some; ValueType := "string" |}.

(** The flag with the annotation [MarkFlagRequired] puts on it. *)
Local Abbreviation marked f :=
  {| pflag.Name := pflag.Name f; Value := Value f; DefValue := DefValue f;
     Changed := Changed f;
     Annotations := <[BashCompOneRequiredFlag := ["true"]]> (Annotations f);
     SetValue := SetValue f; ValueType := ValueType f |}.

Lemma AddFlag_Some f fs fs' :
  AddFlag f fs = Some fs' → Lookup (pflag.Name f) fs = None ∧ fs' = (fs ++ [f])%list.
Proof.
  unfold AddFlag. destruct (Lookup (pflag.Name f) fs); [done|].
  by intros [= <-].
Qed.

Lemma AddFlags_Some (flags : list Flag) : ∀ fs fs',
  AddFlags flags fs = Some fs' → fs' = (fs ++ flags)%list.
Proof.
  unfold AddFlags. induction flags as [|f flags IH]; intros fs fs' H; simpl in H.
  - injection H as <-. by rewrite app_nil_r.
  - destruct (AddFlag f fs) as [fs1|] eqn:HA.
    + apply AddFlag_Some in HA as [_ ->]. rewrite (IH _ _ H).
      by rewrite <- app_assoc.
    + by rewrite AddFlags_panics in H.
Qed.

Lemma Lookup_None_names n fs : Lookup n fs = None → n ∉ pflag.Name <$> fs.
Proof.
  induction fs as [|f fs IH]; simpl; [intros _; apply not_elem_of_nil|].
  destruct (decide (pflag.Name f = n)) as [Hn|Hn]; [done|].
  intros H. apply not_elem_of_cons. split; [congruence|by apply IH].
Qed.

Lemma AddFlag_NoDup f fs fs' :
  AddFlag f fs = Some fs' → NoDup (pflag.Name <$> fs) → NoDup (pflag.Name <$> fs').
Proof.
  intros [HL ->]%AddFlag_Some Hn. rewrite fmap_app. apply NoDup_app.
  split; [done|]. split; [|apply NoDup_singleton].
  intros n Hin [->|[]%elem_of_nil]%elem_of_cons.
  by apply Lookup_None_names in HL.
Qed.

Lemma AddFlags_NoDup (flags : list Flag) : ∀ fs fs',
  AddFlags flags fs = Some fs' →
  NoDup (pflag.Name <$> fs) → NoDup (pflag.Name <$> fs').
Proof.
  unfold AddFlags. induction flags as [|f flags IH]; intros fs fs' H Hn; simpl in H.
  - by injection H as <-.
  - destruct (AddFlag f fs) as [fs1|] eqn:HA.
    + eapply IH; [exact H|]. by eapply AddFlag_NoDup.
    + by rewrite AddFlags_panics in H.
Qed.

Lemma mark_after_add_eq {T} f fs fs' (c : Command T) :
  AddFlag f fs = Some fs' →
  (MarkFlagRequired (pflag.Name f) (with_Flags fs' c)).1 =
  with_Flags (fs ++ [marked f])%list c.
Proof.
  intros [HL ->]%AddFlag_Some. unfold MarkFlagRequired, SetAnnotation.
  cbn [Flags with_Flags]. rewrite Lookup_snoc, decide_True by done.
  cbn [fst]. by rewrite modify_snoc, decide_True by done.
Qed.

(** The command as built: its five flags in the order of lines 62 to 67,
    [service] marked, then the helpers' flags; its closure. *)
Lemma NewCmd_Flags (cmd : Command (M ())) :
  NewCmdCreatePassthroughRoute ext = Some cmd →
  Flags cmd =
    ([plain "hostname"; plain "port"; plain "insecure-policy";
      marked (plain "service"); plain "wildcard-policy"] ++ helper_flags ext)%list ∧
  cobra.Run cmd = closure ext ∧
  NoDup (pflag.Name <$> Flags cmd).
Proof.
  unfold NewCmdCreatePassthroughRoute, helper_flags. intros H.
  destruct (StringVar "hostname" "" _) as [fs1|] eqn:H1; cbn -[AddFlags] in H; [|done].
  destruct (StringVar "port" "" fs1) as [fs2|] eqn:H2; cbn -[AddFlags] in H; [|done].
  destruct (StringVar "insecure-policy" "" fs2) as [fs3|] eqn:H3;
    cbn -[AddFlags] in H; [|done].
  destruct (StringVar "service" "" fs3) as [fs4|] eqn:H4;
    cbn -[AddFlags MarkFlagRequired] in H; [|done].
  match type of H with
  | context [MarkFlagRequired "service" ?c] =>
      assert ((MarkFlagRequired "service" c).1 =
              with_Flags (fs3 ++ [marked (plain "service")])%list c) as Hm
        by exact (mark_after_add_eq _ _ _ c H4);
      destruct (MarkFlagRequired "service" c) as [cmd' ignored]
  end.
  cbn -[AddFlags] in H, Hm. subst cmd'. cbn -[AddFlags] in H.
  destruct (StringVar "wildcard-policy" "" _) as [fs5|] eqn:H5;
    cbn -[AddFlags] in H; [|done].
  destruct (AddFlags (ext_ValidateFlags ext) fs5) as [fs6|] eqn:H6;
    cbn -[AddFlags] in H; [|done].
  destruct (AddFlags (ext_SubcommandFlags ext) fs6) as [fs7|] eqn:H7;
    cbn -[AddFlags] in H; [|done].
  destruct (AddFlags (ext_DryRunFlag ext) fs7) as [fs8|] eqn:H8;
    cbn -[AddFlags] in H; [|done].
  injection H as <-. cbn [Flags with_Flags cobra.Run].
  assert (NoDup (pflag.Name <$> fs8)) as Hnodup.
  { eapply AddFlags_NoDup; [exact H8|]. eapply AddFlags_NoDup; [exact H7|].
    eapply AddFlags_NoDup; [exact H6|]. eapply AddFlag_NoDup; [exact H5|].
    assert (NoDup (pflag.Name <$> fs4)) as H4'.
    { eapply AddFlag_NoDup; [exact H4|]. eapply AddFlag_NoDup; [exact H3|].
      eapply AddFlag_NoDup; [exact H2|]. eapply AddFlag_NoDup; [exact H1|].
      constructor. }
    apply AddFlag_Some in H4 as [_ ->].
    rewrite fmap_app in H4'. by rewrite fmap_app. }
  split; [|done].
  apply AddFlag_Some in H1 as [_ ->], H2 as [_ ->], H3 as [_ ->], H5 as [_ ->].
  apply AddFlags_Some in H6 as ->, H7 as ->, H8 as ->.
  cbn. by rewrite <- !app_assoc.
Qed.






End Command_binding.

Section Command_execution.

Import pflag cobra create.

Context {error Cluster RESTMapper CoreV1Interface : Type}.
Variable ext : @Externals error Cluster RESTMapper CoreV1Interface.

Implicit Types (f : Flag) (fs : FlagSet) (ts : list Token) (g : Flag → Flag).

(** Only [service] is required. *)
Local Abbreviation only_service fs :=
  (∀ f, f ∈ fs → is_required f = true → pflag.Name f = "service").

(** Every required flag has been set. *)
Local Abbreviation all_set fs :=
  (∀ f, f ∈ fs → is_required f = true → Changed f = true).

(** With distinct names, [modify] is a map. *)
Lemma modify_fmap m g fs :
  NoDup (pflag.Name <$> fs) →
  modify m g fs = (λ f, if decide (pflag.Name f = m) then g f else f) <$> fs.
Proof.
  induction fs as [|f fs IH]; simpl; [done|].
  intros [Hf Hfs]%NoDup_cons. destruct (decide (pflag.Name f = m)) as [Hm|Hm].
  - f_equal. rewrite <- (list_fmap_id fs) at 1. apply list_fmap_ext.
    intros i f' Hi. rewrite decide_False; [done|].
    intros Hf'. apply Hf. rewrite Hm, <- Hf'.
    apply list_elem_of_fmap. exists f'. split; [done|].
    by eapply list_elem_of_lookup_2.
  - f_equal. by apply IH.
Qed.

(** Setting a flag, under distinct names: the flag called [m] is marked as
    changed, and names and annotations stay. *)
Lemma Set_fmap m v fs fs' :
  NoDup (pflag.Name <$> fs) → Set_ m v fs = Ok fs' →
  ∃ g, (∀ f, pflag.Name (g f) = pflag.Name f ∧
             is_required (g f) = is_required f ∧ Changed (g f) = true) ∧
       fs' = (λ f, if decide (pflag.Name f = m) then g f else f) <$> fs.
Proof.
  intros Hn. unfold Set_.
  destruct (Lookup m fs) as [f0|]; [|done].
  destruct (SetValue f0 v) as [v'|]; [|done].
  intros [= <-]. eexists. split; [|by apply modify_fmap].
  intros f. by repeat split.
Qed.

Lemma Set_keeps_names m v fs fs' :
  NoDup (pflag.Name <$> fs) → Set_ m v fs = Ok fs' →
  pflag.Name <$> fs' = pflag.Name <$> fs.
Proof.
  intros Hn (g & Hg & ->)%Set_fmap; [|done].
  rewrite <- list_fmap_compose. apply list_fmap_ext.
  intros i f _. simpl. destruct (decide (pflag.Name f = m)); [apply Hg|done].
Qed.

Lemma Parse_sets_required ts : ∀ fs fs' args,
  NoDup (pflag.Name <$> fs) → only_service fs →
  supplied "service" ts = true ∨ all_set fs →
  Parse ts fs = Ok (fs', args) → all_set fs'.
Proof.
  induction ts as [|[m v|a] ts IH]; intros fs fs' args Hn Hr Hs HP; simpl in *.
  - injection HP as <- <-. by destruct Hs.
  - destruct (Set_ m v fs) as [fs1|] eqn:HS; [|done].
    pose proof (Set_keeps_names _ _ _ _ Hn HS) as Hnames.
    destruct (Set_fmap _ _ _ _ Hn HS) as (g & Hg & ->).
    eapply IH; [by rewrite Hnames| |  |exact HP].
    + intros f' (f & -> & Hf)%list_elem_of_fmap.
      destruct (decide (pflag.Name f = m)); [|by apply Hr].
      destruct (Hg f) as (-> & -> & _). by apply Hr.
    + destruct Hs as [[Hm|Hs]%orb_true_iff|Hq]; [|by left|].
      * apply bool_decide_eq_true in Hm as ->. right.
        intros f' (f & -> & Hf)%list_elem_of_fmap.
        destruct (decide (pflag.Name f = "service")) as [Hfn|Hfn]; [intros _; apply Hg|].
        intros Hreq. by destruct Hfn; apply Hr.
      * right. intros f' (f & -> & Hf)%list_elem_of_fmap.
        destruct (decide (pflag.Name f = m)); [intros _; apply Hg|by apply Hq].
  - destruct (Parse ts fs) as [[fs1 args1]|] eqn:HP1; [|done].
    injection HP as <- <-. by eapply IH.
Qed.

Lemma all_set_none_missing fs : all_set fs → missingRequiredFlags fs = [].
Proof.
  unfold missingRequiredFlags, FlagSet in *.
  induction fs as [|f fs IH]; intros Hq; [done|].
  rewrite filter_cons. destruct (decide _) as [Hf|Hf].
  - apply andb_true_iff in Hf as [Hreq Hch].
    rewrite (Hq f) in Hch; [done|by left|done].
  - apply IH. intros f' Hf'. apply Hq. by right.
Qed.

(** In the command as built, only [service] is required when the helpers
    register no required flag. *)
Lemma NewCmd_only_service (cmd : Command (M ())) :
  NewCmdCreatePassthroughRoute ext = Some cmd →
  Forall (λ f, is_required f = false) (helper_flags ext) →
  only_service (Flags cmd).
Proof.
  intros (-> & _ & _)%NewCmd_Flags Hh f [Hf|Hf]%elem_of_app Hreq.
  - repeat (apply elem_of_cons in Hf as [->|Hf]); [..|by apply elem_of_nil in Hf];
      try done; unfold is_required in Hreq; cbn [Annotations] in Hreq;
      by rewrite lookup_empty in Hreq.
  - rewrite Forall_forall in Hh. by rewrite (Hh f Hf) in Hreq.
Qed.

(** The default help flag is not required and has a name of its own. *)
Lemma InitDefaultHelpFlag_invariants {T} (c : Command T) :
  NoDup (pflag.Name <$> Flags c) → only_service (Flags c) →
  NoDup (pflag.Name <$> Flags (InitDefaultHelpFlag c)) ∧
  only_service (Flags (InitDefaultHelpFlag c)) ∧
  cobra.Run (InitDefaultHelpFlag c) = cobra.Run c.
Proof.
  intros Hn Hr. unfold InitDefaultHelpFlag.
  destruct (Lookup "help" (Flags c)) eqn:HL; [done|].
  cbn [Flags with_Flags cobra.Run]. split; [|split; [|done]].
  - rewrite fmap_app. apply NoDup_app. split; [done|].
    split; [|apply NoDup_singleton].
    intros n Hin [->|[]%elem_of_nil]%elem_of_cons.
    by apply Lookup_None_names in HL.
  - intros f [Hf|[->|[]%elem_of_nil]%elem_of_cons]%elem_of_app Hreq;
      [by apply Hr|].
    unfold is_required in Hreq. cbn [BoolFlag Annotations] in Hreq.
    by rewrite lookup_empty in Hreq.
Qed.

(** X8.  [--service] is the only flag the command itself requires: when
    the helpers register no required flag, a command line that parses,
    gives [--service] and does not ask for help reaches the closure.
    [Complete] is called first, with the positional arguments; its error
    ends the process before [Run] is called, and otherwise the process ends
    as [Run] on the bound options ends.  When help is asked for, the help
    text is shown instead and neither is called. *)
Theorem service_flag_suffices (cmd : Command (M ())) ts fs args (s : @State Cluster) :
  NewCmdCreatePassthroughRoute ext = Some cmd →
  Forall (λ f, is_required f = false) (helper_flags ext) →
  supplied "service" ts = true →
  Parse ts (Flags (InitDefaultHelpFlag cmd)) = Ok (fs, args) →
  (GetBool "help" fs = Some true → Execute cmd ts s = (ExitHelp, s)) ∧
  (GetBool "help" fs = Some false →
   (∀ e, ext_Complete ext fs args (cluster s) = Failed e →
         Execute cmd ts s = (ExitFatal e, issue (CallComplete args) s)) ∧
   (∀ sub, ext_Complete ext fs args (cluster s) = Ok sub →
         Execute cmd ts s =
         (match (Run ext (bound_options fs sub) (issue (CallComplete args) s)).1 with
          | Ok _ => ExitOk
          | Failed e => ExitFatal e
          end,
          (Run ext (bound_options fs sub) (issue (CallComplete args) s)).2))).
Proof.
  intros Hcmd Hh Hs HP.
  pose proof (NewCmd_only_service cmd Hcmd Hh) as Hr.
  destruct (NewCmd_Flags ext cmd Hcmd) as (_ & Hrun & Hn).
  destruct (InitDefaultHelpFlag_invariants cmd Hn Hr) as (Hn' & Hr' & Hrun').
  assert (missingRequiredFlags fs = []) as Hmiss.
  { apply all_set_none_missing. eapply Parse_sets_required; eauto. }
  unfold Execute, execute. cbv zeta. rewrite HP. split; intros ->; [done|].
  rewrite Hmiss, Hrun', Hrun. unfold closure, bind, Complete.
  split.
  - intros e ->. done.
  - intros sub ->. by destruct (Run ext _ _) as [[[]|e] s'].
Qed.

End Command_execution.

(** * Further properties of the shim *)

Section Shim_hooks.

Import cli.

Context {error Func SpecialVerbs : Type}.
Variable imp : @Imports error Func SpecialVerbs.

Implicit Types (p : @Process error Func SpecialVerbs).
Implicit Types (g : @Globals error Func SpecialVerbs) (h : Hook).

(** The assignments [pkg.XFn = New...Fn(pkg.XFn)] for the hooks [l], in
    order. *)
Local Abbreviation wrap_all l := (foldr (λ h k g, k (wrap imp h g)) id l).

(** The hooks the shim wraps, in the order it wraps them. *)
Local Abbreviation wrapped :=
  [AttachablePodForObjectFn; CanBeExposedFn; HistoryViewerFn; LogsForObjectFn;
   MapBasedSelectorForObjectFn; ObjectPauserFn; ObjectResumerFn;
   PortsForObjectFn; ProtocolsForObjectFn; RollbackerFn; StatusViewerFn;
   UpdatePodSpecForObjectFn; GeneratorFn; DescriberFn].

(** Wrapping distinct hooks one after the other wraps each of them once
    and leaves the others alone. *)
Lemma wrap_all_hooks (l : list Hook) : ∀ g h,
  NoDup l →
  hooks (wrap_all l g) h =
  if decide (h ∈ l) then originpolymorphichelpers_New imp h (hooks g h) else hooks g h.
Proof.
  induction l as [|x l IH]; intros g h Hn; cbn [foldr id].
  - rewrite decide_False; [done|apply not_elem_of_nil].
  - apply NoDup_cons in Hn as [Hx Hl]. rewrite IH by done.
    destruct (decide (h = x)) as [->|Hne].
    + rewrite decide_False by done. rewrite decide_True by (by left).
      cbn [wrap hooks]. by rewrite decide_True.
    + cbn [wrap hooks]. rewrite (decide_False (P := h = x)) by done.
      destruct (decide (h ∈ l)) as [Hin|Hin].
      * rewrite decide_True; [done|by right].
      * rewrite decide_False; [done|].
        by intros [?|?]%elem_of_cons.
Qed.

(** Wrapping hooks touches no other variable. *)
Lemma wrap_all_others (l : list Hook) : ∀ g,
  kclientcmd_ErrEmptyConfig (wrap_all l g) = kclientcmd_ErrEmptyConfig g ∧
  kclientcmd_ClusterDefaults (wrap_all l g) = kclientcmd_ClusterDefaults g ∧
  kclientcmd_UseModifyConfigLock (wrap_all l g) = kclientcmd_UseModifyConfigLock g ∧
  kcmdset_ParseDockerImageReferenceToStringFunc (wrap_all l g) =
    kcmdset_ParseDockerImageReferenceToStringFunc g ∧
  kcmdcreate_specialVerbs (wrap_all l g) = kcmdcreate_specialVerbs g.
Proof.
  induction l as [|x l IH]; intros g; cbn [foldr id]; [done|].
  destruct (IH (wrap imp x g)) as (-> & -> & -> & -> & ->). done.
Qed.

Lemma wrapped_all h : NoDup wrapped ∧ h ∈ wrapped.
Proof.
  split.
  - apply (bool_decide_unpack _). by vm_compute.
  - destruct h; rewrite !elem_of_cons; auto 20.
Qed.

(** The process after one run of the shim, variable by variable. *)
Lemma shimKubectlForOc_globals p :
  let p' := shimKubectlForOc imp p in
  environ p' = environ p ∧
  getenv_calls p' = (getenv_calls p ++ ["KUBERNETES_MASTER"])%list ∧
  kclientcmd_ErrEmptyConfig (globals p') = genericclioptions_ErrEmptyConfig imp ∧
  kclientcmd_ClusterDefaults (globals p') =
    {| kclientcmdapi.Server := default "" (environ p !! "KUBERNETES_MASTER");
       kclientcmdapi.InsecureSkipTLSVerify := false;
       kclientcmdapi.CertificateAuthority := "" |} ∧
  kclientcmd_UseModifyConfigLock (globals p') = false ∧
  kcmdset_ParseDockerImageReferenceToStringFunc (globals p') =
    clientcmd_ParseDockerImageReferenceToStringFunc imp ∧
  kcmdcreate_specialVerbs (globals p') =
    kcmdcreate_AddSpecialVerb imp "use"
      {| schema.Group := "security.openshift.io";
         schema.Resource := "securitycontextconstraints" |}
      (kcmdcreate_specialVerbs (globals p)) ∧
  (∀ h, hooks (globals p') h =
        originpolymorphichelpers_New imp h (hooks (globals p) h)).
Proof.
  cbv zeta. rewrite shimKubectlForOc_unfold. cbv zeta.
  cbn [globals environ getenv_calls].
  match goal with
  | |- context [foldr _ id _ ?G] =>
      destruct (wrap_all_others wrapped G) as (-> & -> & -> & -> & ->);
      pose proof (λ h, wrap_all_hooks wrapped G h (proj1 (wrapped_all h))) as W
  end.
  do 7 (split; [reflexivity|]).
  intros h. rewrite W, decide_True by apply wrapped_all. reflexivity.
Qed.

(** X9.  After the shim every one of the fourteen function variables holds
    its own [New...Fn] constructor applied to the value it held before: each
    is wrapped once, and no assignment undoes another.  The special-verb
    table is the previous one with [use] on
    [securitycontextconstraints.security.openshift.io] added. *)
Theorem shimKubectlForOc_wraps_each_hook_once p :
  (∀ h, hooks (globals (shimKubectlForOc imp p)) h =
        originpolymorphichelpers_New imp h (hooks (globals p) h)) ∧
  kcmdcreate_specialVerbs (globals (shimKubectlForOc imp p)) =
    kcmdcreate_AddSpecialVerb imp "use"
      {| schema.Group := "security.openshift.io";
         schema.Resource := "securitycontextconstraints" |}
      (kcmdcreate_specialVerbs (globals p)).
Proof.
  pose proof (shimKubectlForOc_globals p) as H. cbv zeta in H.
  split; apply H.
Qed.

(** X10.  The shim is not idempotent.  Run twice, it leaves
    [ErrEmptyConfig], [ClusterDefaults], [UseModifyConfigLock] and the image
    reference parser as one run does, but it wraps every function variable
    twice, adds the special verb twice and asks for [KUBERNETES_MASTER]
    twice. *)
Theorem shimKubectlForOc_twice p :
  let once := shimKubectlForOc imp p in
  let twice := shimKubectlForOc imp once in
  kclientcmd_ErrEmptyConfig (globals twice) = kclientcmd_ErrEmptyConfig (globals once) ∧
  kclientcmd_ClusterDefaults (globals twice) = kclientcmd_ClusterDefaults (globals once) ∧
  kclientcmd_UseModifyConfigLock (globals twice) =
    kclientcmd_UseModifyConfigLock (globals once) ∧
  kcmdset_ParseDockerImageReferenceToStringFunc (globals twice) =
    kcmdset_ParseDockerImageReferenceToStringFunc (globals once) ∧
  (∀ h, hooks (globals twice) h =
        originpolymorphichelpers_New imp h
          (originpolymorphichelpers_New imp h (hooks (globals p) h))) ∧
  kcmdcreate_specialVerbs (globals twice) =
    (let add := kcmdcreate_AddSpecialVerb imp "use"
                  {| schema.Group := "security.openshift.io";
                     schema.Resource := "securitycontextconstraints" |} in
     add (add (kcmdcreate_specialVerbs (globals p)))) ∧
  getenv_calls twice =
    (getenv_calls p ++ ["KUBERNETES_MASTER"; "KUBERNETES_MASTER"])%list.
Proof.
  cbv zeta.
  pose proof (shimKubectlForOc_globals p) as H1.
  pose proof (shimKubectlForOc_globals (shimKubectlForOc imp p)) as H2.
  cbv zeta in H1, H2.
  generalize dependent (shimKubectlForOc imp (shimKubectlForOc imp p)).
  generalize dependent (shimKubectlForOc imp p).
  intros once (E1 & C1 & A1 & B1 & U1 & P1 & V1 & W1) twice
    (E2 & C2 & A2 & B2 & U2 & P2 & V2 & W2).
  rewrite A1, A2, B1, B2, U1, U2, P1, P2, V2, V1, C2, C1, E1.
  repeat split; try reflexivity.
  - intros h. by rewrite W2, W1.
  - by rewrite <- app_assoc.
Qed.

End Shim_hooks.

(** * The further properties on the test double *)

Section Further_on_the_test_double.

Import metav1 routev1 kcmdutil pflag cobra create fake.

(** X2 on the test double: the route constructed for [frontend] keeps its
    name, namespace, target and port through [Run]. *)
Lemma Run_keeps_constructed_route_witness :
  let o := options (subcommand storing name_printer "my-route" DryRunNone)
             "frontend" "www.example.com" "Subdomain" "Redirect" in
  match construct_answer ext o start "frontend" with
  | Ok route =>
      resolve_answer ext o start = Ok "frontend" ∧
      Forall (λ c, ∀ obj,
                local_object (DryRunStrategy (SubcommandOptions o)) c = Some obj →
                Path (Spec obj) = Path (Spec route) ∧
                To (Spec obj) = To (Spec route) ∧
                routev1.Port (Spec obj) = routev1.Port (Spec route) ∧
                metav1.Name (Meta obj) = metav1.Name (Meta route) ∧
                metav1.Namespace (Meta obj) = metav1.Namespace (Meta route) ∧
                Labels (Meta obj) = Labels (Meta route))
             (issued start (Run ext o start).2)
  | Failed _ => False
  end.
Proof.
  cbv zeta.
  destruct (construct_answer ext _ start "frontend") as [route|e] eqn:Hc.
  - split; [reflexivity|].
    exact (Run_keeps_constructed_route ext
             (options (subcommand storing name_printer "my-route" DryRunNone)
                "frontend" "www.example.com" "Subdomain" "Redirect")
             start "frontend" route eq_refl Hc).
  - vm_compute in Hc. discriminate Hc.
Defined.

(** Server dry-run on the test double: the request carries no dry-run
    directive, so the storing server stores the route. *)
Example Run_server_dry_run_stores :
  let o := options (subcommand storing name_printer "my-route" DryRunServer)
             "frontend" "" "" "" in
  length (cluster (Run ext o start).2) = 1 ∧
  kind <$> issued start (Run ext o start).2 = call_order DryRunServer.
Proof. vm_compute. done. Qed.

(** The command is built on the test double, whichever [Complete] it is
    given. *)
Lemma built_on_the_test_double (e : @Externals error Cluster () ()) :
  ext_ValidateFlags e = ext_ValidateFlags ext →
  ext_SubcommandFlags e = ext_SubcommandFlags ext →
  ext_DryRunFlag e = ext_DryRunFlag ext →
  ∃ cmd, NewCmdCreatePassthroughRoute e = Some cmd.
Proof.
  intros Hv Hs Hd. unfold NewCmdCreatePassthroughRoute. rewrite Hv, Hs, Hd.
  eexists. cbv -[closure]. reflexivity.
Qed.




(** A command line parsed as [execute] parses it, with the default help
    flag, by the command on the test double. *)
Ltac execute_on_the_test_double e cmd Hcmd fs args HP :=
  cbv zeta;
  destruct (built_on_the_test_double e eq_refl eq_refl eq_refl) as [cmd Hcmd];
  rewrite Hcmd;
  let HF := fresh "HF" in
  let HP' := fresh "HP" in
  destruct (NewCmd_Flags e cmd Hcmd) as (HF & _ & _);
  match goal with
  | |- context [Parse ?ts (Flags (InitDefaultHelpFlag cmd))] =>
      destruct (Parse ts (Flags (InitDefaultHelpFlag cmd)))
        as [[fs args]|?] eqn:HP;
      pose proof HP as HP';
      unfold InitDefaultHelpFlag in HP'; rewrite HF in HP';
      vm_compute in HP'; [injection HP' as <- <-|discriminate HP']
  end.

(** X8 on the test double: with [--service] given and no help asked for
    the closure is reached; when [Complete] fails the process ends with its
    error and [Run] is not called. *)
Lemma service_flag_suffices_witness :
  let ts := [Arg "my-route"; Opt "service" "frontend"] in
  match NewCmdCreatePassthroughRoute incomplete with
  | Some cmd =>
      match Parse ts (Flags (InitDefaultHelpFlag cmd)) with
      | Ok (fs, args) =>
          GetBool "help" fs = Some false ∧
          Execute cmd ts start =
          (ExitFatal "no namespace", issue (CallComplete args) start)
      | Failed _ => False
      end
  | None => False
  end.
Proof.
  execute_on_the_test_double incomplete cmd Hcmd fs args HP.
  split; [reflexivity|].
  refine (proj1 (proj2 (service_flag_suffices incomplete cmd
                          [Arg "my-route"; Opt "service" "frontend"] _ _ start
                          Hcmd _ eq_refl HP) eq_refl) _ eq_refl).
  unfold helper_flags, incomplete, ext, string_flag, is_required.
  cbn [ext_ValidateFlags ext_SubcommandFlags ext_DryRunFlag app].
  repeat (apply Forall_cons; split; [cbn [Annotations]; by rewrite lookup_empty|]).
  apply Forall_nil. done.
Defined.

(** C2, the claim as stated fails.  [--help] without [--service] is not
    rejected: the help text is shown and no error is returned. *)
Lemma help_without_service_is_not_rejected :
  match NewCmdCreatePassthroughRoute ext with
  | Some cmd =>
      supplied "service" [Opt "help" "true"] = false ∧
      Execute cmd [Opt "help" "true"] start = (ExitHelp, start)
  | None => False
  end.
Proof.
  destruct (built_on_the_test_double ext eq_refl eq_refl eq_refl) as [cmd Hcmd].
  rewrite Hcmd. split; [reflexivity|].
  destruct (NewCmd_Flags ext cmd Hcmd) as (HF & _ & _).
  unfold Execute, execute, InitDefaultHelpFlag. rewrite HF.
  vm_compute. reflexivity.
Qed.

(** C2 on the test double: [oc create route passthrough my-route
    --hostname=www.example.com] does not reach the closure and ends with
    the required-flag error naming [service]. *)
Lemma missing_service_flag_never_runs_witness :
  let a := [Arg "my-route"; Opt "hostname" "www.example.com"] in
  match NewCmdCreatePassthroughRoute ext with
  | Some cmd =>
      supplied "service" a = false ∧
      (Execute cmd a start).2 = start ∧
      issued start (Execute cmd a start).2 = [] ∧
      ∃ missing, "service" ∈ missing ∧
                 (Execute cmd a start).1 = ExitRequiredFlagsNotSet missing
  | None => False
  end.
Proof.
  cbv zeta.
  destruct (built_on_the_test_double ext eq_refl eq_refl eq_refl) as [cmd Hcmd].
  rewrite Hcmd. split; [reflexivity|].
  destruct (missing_service_flag_never_runs ext cmd
              [Arg "my-route"; Opt "hostname" "www.example.com"] start Hcmd eq_refl)
    as (H1 & H2 & H3).
  split; [exact H1|]. split; [exact H2|].
  destruct (NewCmd_Flags ext cmd Hcmd) as (HF & _ & _).
  unfold InitDefaultHelpFlag in H3. rewrite HF in H3.
  remember (Execute cmd [Arg "my-route"; Opt "hostname" "www.example.com"] start).1
    as outcome.
  vm_compute in H3. exact H3.
Defined.

(** The route that [Run] hands on for [frontend] on the test double. *)
Ltac frontend_on_the_test_double o H :=
  cbv zeta;
  let route := fresh "route" in
  let a := fresh "a" in
  let Hc := fresh "Hc" in
  let Ha := fresh "Ha" in
  destruct (construct_answer ext o start "frontend") as [route|?] eqn:Hc;
    [|vm_compute in Hc; discriminate Hc];
  destruct (annotate_answer ext o (configure o route)) as [a|?] eqn:Ha;
    [|vm_compute in Ha; discriminate Ha];
  destruct (H "frontend" route eq_refl Hc) as (_ & _ & H');
  destruct (H' a Ha) as [HQ Hin];
  exists (with_Annotations a (configure o route)).

(** C6 on the test double: the route submitted to the server has the host
    asked for. *)
Lemma Run_Host_is_Hostname_witness :
  let o := options (subcommand storing name_printer "my-route" DryRunNone)
             "frontend" "www.example.com" "" "" in
  ∃ obj, create_call o obj ∈ issued start (Run ext o start).2 ∧
         Host (Spec obj) = "www.example.com".
Proof.
  pose proof (proj2 (Run_Host_is_Hostname ext
                (options (subcommand storing name_printer "my-route" DryRunNone)
                   "frontend" "www.example.com" "" "") start)) as H.
  frontend_on_the_test_double
    (options (subcommand storing name_printer "my-route" DryRunNone)
       "frontend" "www.example.com" "" "") H.
  split; [exact Hin|exact HQ].
Defined.

(** C9 on the test double: the route submitted to the server has the fresh
    TLS config, with the insecure policy asked for. *)
Lemma Run_TLS_fresh_witness :
  let o := options (subcommand storing name_printer "my-route" DryRunNone)
             "frontend" "" "" "Redirect" in
  ∃ obj, create_call o obj ∈ issued start (Run ext o start).2 ∧
         TLS (Spec obj) =
         Some {| Termination := "passthrough"; Certificate := ""; Key := "";
                 CACertificate := ""; DestinationCACertificate := "";
                 InsecureEdgeTerminationPolicy := "Redirect" |}.
Proof.
  pose proof (proj2 (Run_TLS_fresh ext
                (options (subcommand storing name_printer "my-route" DryRunNone)
                   "frontend" "" "" "Redirect") start)) as H.
  frontend_on_the_test_double
    (options (subcommand storing name_printer "my-route" DryRunNone)
       "frontend" "" "" "Redirect") H.
  split; [exact Hin|exact HQ].
Defined.

(** C8 on the test double: policies outside the documented sets are in the
    route submitted to the storing server as they were given, and [Run]
    succeeds. *)
Lemma Run_policies_unvalidated_witness :
  let o := options (subcommand storing name_printer "my-route" DryRunNone)
             "frontend" "" "Everything" "Sometimes" in
  returned (Run ext o start).1 = None ∧
  ∃ obj, create_call o obj ∈ issued start (Run ext o start).2 ∧
         routev1.WildcardPolicy (Spec obj) = "Everything" ∧
         InsecureEdgeTerminationPolicy <$> TLS (Spec obj) = Some "Sometimes".
Proof.
  pose proof (proj1 (proj2 (Run_policies_unvalidated ext
                (options (subcommand storing name_printer "my-route" DryRunNone)
                   "frontend" "" "Everything" "Sometimes") start))) as H.
  split; [reflexivity|].
  frontend_on_the_test_double
    (options (subcommand storing name_printer "my-route" DryRunNone)
       "frontend" "" "Everything" "Sometimes") H.
  destruct HQ as [HW HI].
  split; [exact Hin|]. split; [apply HW|apply HI]; cbn; lia.
Defined.

(** C8, the claim as stated fails.  A server that validates the wildcard
    policy refuses a value outside the documented set, and [Run] returns
    that error: the same invocation with a documented value succeeds. *)
Lemma Run_passes_on_server_validation :
  let run wildcard :=
    Run ext (options (subcommand validating name_printer "my-route" DryRunNone)
               "frontend" "" wildcard "") start in
  returned (run "Everything").1 = Some "spec.wildcardPolicy: Invalid value" ∧
  existsb is_Create (issued start (run "Everything").2) = true ∧
  returned (run "Subdomain").1 = None.
Proof. vm_compute. done. Qed.

End Further_on_the_test_double.
